(** * zynq-bit2bin: the .bit to .bin converter, embedded and verified

    A shallow embedding of [zynq-bit2bin.c].  The two [FILE*] streams and
    [stderr] are threaded explicitly as a [state]; every C function that
    returns "non-zero on error" becomes a function into [outcome]. *)

From Stdlib Require Import ZArith ZifyNat List Lia Strings.Byte Strings.String DecimalString.
From stdpp Require Import base list.

Local Open Scope Z_scope.

(** ** Bytes *)

#[global] Instance byte_eq_decision : EqDecision byte := byte_eq_dec.
#[global] Instance byte_inhabited : Inhabited byte := populate x00.

(** The value of a [uint8_t] once promoted to an integer. *)
Definition byte_val (b : byte) : Z := Z.of_N (Byte.to_N b).

(** A C string literal, as the bytes it denotes. *)
Definition lit (s : string) : list byte := list_byte_of_string s.

(** ** What is printed on [stderr]

    One constructor per [fprintf(stderr, ...)] of the source, carrying the
    arguments of the format string; [render] gives the bytes printed. *)

Inductive msg : Type :=
| Err_read_uint (bytes r : Z)
| Err_field_too_large
| Err_field_short (r : Z)
| Meta_line (text : list byte)
| Err_magic_short
| Err_magic_invalid
| Err_invert_size (n : Z)
| Err_fw_too_small (len : Z)
| Err_fw_unaligned
| Err_chunk_read (r : Z)
| Err_sync (b0 b1 b2 b3 : byte)
| Err_write (r : Z)
| Err_field_type_read (r : Z)
| Err_unknown_field (field_type : byte).

(** [%d] *)
Definition fmt_d (z : Z) : list byte := lit (NilZero.string_of_int (Z.to_int z)).

Definition hex_digit (d : Z) : byte :=
  match Byte.of_N (Z.to_N (if d <? 10 then 48 + d else 55 + d)) with
  | Some b => b
  | None => x00
  end.

(** [%02hhX] *)
Definition fmt_02hhX (b : byte) : list byte :=
  [hex_digit (byte_val b / 16); hex_digit (byte_val b mod 16)].

Definition render (m : msg) : list byte :=
  match m with
  | Err_read_uint bytes r =>
      lit "Error reading a " ++ fmt_d bytes ++ lit " Bytes number (" ++ fmt_d r ++ [x29; x0a]
  | Err_field_too_large => lit "Encountered a field size too large for me" ++ [x0a]
  | Err_field_short r => lit "Cannot read the whole field (" ++ fmt_d r ++ [x29; x0a]
  | Meta_line text => lit "* " ++ text ++ [x0a]
  | Err_magic_short => lit "Unable to read the magic header" ++ [x0a]
  | Err_magic_invalid => lit "Invalid magic header" ++ [x0a]
  | Err_invert_size n =>
      lit "Invalid buffer size " ++ fmt_d n
        ++ lit " when attempting to invert u32 endianness" ++ [x0a]
  | Err_fw_too_small len => lit "The firmware blob is too small (" ++ fmt_d len ++ [x29; x0a]
  | Err_fw_unaligned => lit "The firmware is not 4 Bytes aligned" ++ [x0a]
  | Err_chunk_read r => lit "Cannot read first chunk of firmware (" ++ fmt_d r ++ [x29; x0a]
  | Err_sync b0 b1 b2 b3 =>
      lit "Invalid SYNC word (" ++ fmt_02hhX b0 ++ fmt_02hhX b1 ++ fmt_02hhX b2
        ++ fmt_02hhX b3 ++ [x29; x0a]
  | Err_write r => lit "Unable to write to output (" ++ fmt_d r ++ [x29; x0a]
  | Err_field_type_read r => lit "Cannot read field type (" ++ fmt_d r ++ [x29; x0a]
  | Err_unknown_field t => lit "Unknown field type " ++ fmt_02hhX t ++ [x0a]
  end.

(** ** The streams *)

Record state : Type := mkState {
  input : list byte;   (** what is left to read on the input file *)
  output : list byte;  (** what has been written to the output file *)
  room : nat;          (** how many more bytes the output file accepts *)
  diag : list msg      (** what has been printed on [stderr], oldest first *)
}.

Definition stderr_bytes (s : state) : list byte := concat (map render (diag s)).

(** [fread(buf, 1, n, input)]: the bytes read (their count is the return
    value) and the stream after them.  A short read consumes what is left. *)
Definition fread (n : nat) (s : state) : list byte * state :=
  (take n (input s),
   {| input := drop n (input s); output := output s; room := room s; diag := diag s |}).

(** [fwrite(buf, 1, n, output)]: the count written and the stream after. *)
Definition fwrite (buf : list byte) (s : state) : Z * state :=
  let done := take (room s) buf in
  (Z.of_nat (length done),
   {| input := input s; output := output s ++ done;
      room := (room s - length done)%nat; diag := diag s |}).

Definition eprint (m : msg) (s : state) : state :=
  {| input := input s; output := output s; room := room s; diag := diag s ++ [m] |}.

(** ** Results of a call *)

Inductive outcome (A : Type) : Type :=
| Ok (a : A) (s : state)   (** [return 0], with the out-parameter *)
| Err (s : state)          (** [return -1] *)
| Undefined                (** the C program read past the end of an array *)
| OutOfFuel.               (** the bound of a modelled loop was hit *)
Arguments Ok {A} a s.
Arguments Err {A} s.
Arguments Undefined {A}.
Arguments OutOfFuel {A}.

Definition bind {A B : Type} (o : outcome A) (k : A -> state -> outcome B) : outcome B :=
  match o with
  | Ok a s => k a s
  | Err s => Err s
  | Undefined => Undefined
  | OutOfFuel => OutOfFuel
  end.

(** [f(...);] with the return value dropped: execution goes on either way. *)
Definition ignoring {A B : Type} (o : outcome A) (k : state -> outcome B) : outcome B :=
  match o with
  | Ok _ s => k s
  | Err s => k s
  | Undefined => Undefined
  | OutOfFuel => OutOfFuel
  end.

Notation "'let%ok' ( a , s ) := o 'in' k" :=
  (bind o (fun a s => k))
  (at level 10, a name, s name, o at level 100, k at level 200,
   format "'[v' 'let%ok'  ( a ,  s )  :=  o  'in' '/' k ']'").

(** The final state of a call that returned. *)
Definition final {A : Type} (o : outcome A) : option state :=
  match o with
  | Ok _ s => Some s
  | Err s => Some s
  | _ => None
  end.

(** The [int] a call returns. *)
Definition return_code {A : Type} (o : outcome A) : option Z :=
  match o with
  | Ok _ _ => Some 0
  | Err _ => Some (-1)
  | _ => None
  end.

(** ** Constants *)

Definition MAX_META_FIELD_LENGTH : Z := 256.

Definition BIT_MAGIC_HEADER : list byte :=
  [x00; x09; x0f; xf0; x0f; xf0; x0f; xf0;
   x0f; xf0; x00; x00; x01].

Definition FIRMWARE_MAGIC_HEADER : list byte :=
  [xff; xff; xff; xff; xff; xff; xff; xff;
   xff; xff; xff; xff; xff; xff; xff; xff;
   xff; xff; xff; xff; xff; xff; xff; xff;
   xff; xff; xff; xff; xff; xff; xff; xff;
   x00; x00; x00; xbb; x11; x22; x00; x44;
   xff; xff; xff; xff; xff; xff; xff; xff].

(** ["\xaa\x99\x55\x66"] and ["\x66\x55\x99\xaa"] *)
Definition SYNC_INVERTED : list byte := [xaa; x99; x55; x66].
Definition SYNC_CANONICAL : list byte := [x66; x55; x99; xaa].

Definition sizeof_chunk : Z := 4096.

(** [memcmp(a, b, n)]: zero when the first [n] bytes agree, else the
    difference of the first two that differ.  Both arrays hold at least [n]
    bytes at every call of the source; a list that ends early compares as
    different. *)
Fixpoint memcmp (a b : list byte) (n : nat) {struct n} : Z :=
  match n with
  | O => 0
  | S n' =>
      match a, b with
      | x :: a', y :: b' =>
          if decide (x = y) then memcmp a' b' n' else byte_val x - byte_val y
      | [], _ :: _ => -1
      | _, [] => 1
      end
  end.

(** ** read_uint *)

(** One round of the accumulation [res = (res << 8) | buf[i]], on a
    [uint32_t]. *)
Definition shift_in (res : Z) (b : byte) : Z :=
  Z.lor (Z.shiftl res 8 mod 2 ^ 32) (byte_val b).

Definition read_uint (bytes : nat) (s : state) : outcome Z :=
  let '(buf, s) := fread bytes s in
  let r := Z.of_nat (length buf) in
  if negb (r =? Z.of_nat bytes) then
    Err (eprint (Err_read_uint (Z.of_nat bytes) r) s)
  else
    Ok (fold_left shift_in buf 0) s.

(** ** read_magic_header *)

Definition read_magic_header (expected : list byte) (bytes : nat) (s : state)
  : outcome unit :=
  let '(buf, s) := fread bytes s in
  let r := Z.of_nat (length buf) in
  if negb (r =? Z.of_nat bytes) then
    Err (eprint Err_magic_short s)
  else if negb (memcmp buf expected bytes =? 0) then
    Err (eprint Err_magic_invalid s)
  else
    Ok tt s.

(** [READ_MAGIC_HEADER(input, expected)] *)
Definition READ_MAGIC_HEADER (expected : list byte) (s : state) : outcome unit :=
  read_magic_header expected (length expected) s.

(** ** invert_u32_endianness *)

(** The [for (i = 0; i < n; i += 4)] loop; it ends within [n] rounds. *)
Fixpoint invert_loop (fuel : nat) (i n : nat) (buf : list byte) : list byte :=
  match fuel with
  | O => buf
  | S fuel' =>
      if (i <? n)%nat then
        let tmp := buf !!! i in
        let buf := <[i := buf !!! (i + 3)%nat]> buf in
        let buf := <[(i + 3)%nat := tmp]> buf in
        let tmp := buf !!! (i + 1)%nat in
        let buf := <[(i + 1)%nat := buf !!! (i + 2)%nat]> buf in
        let buf := <[(i + 2)%nat := tmp]> buf in
        invert_loop fuel' (i + 4) n buf
      else buf
  end.

(** The buffer is changed in place: the result carries its new contents. *)
Definition invert_u32_endianness (buf : list byte) (n : nat) (s : state)
  : outcome (list byte) :=
  if negb (Z.of_nat n mod 4 =? 0) then
    Err (eprint (Err_invert_size (Z.of_nat n)) s)
  else
    Ok (invert_loop n 0 n buf) s.

(** ** process_firmware *)

(** [MIN(x, y)], which expands to [(x < y) ? x : y]. *)
Definition MIN (x y : Z) : Z := if x <? y then x else y.

(** The variables the copy loop carries from one round to the next. *)
Record loop_vars : Type := mkVars {
  fw_length : Z;         (** [uint32_t]: bytes of firmware still to copy *)
  chunks_done : Z;       (** [int] *)
  invert_endian : bool
}.

(** Steps 1 to 4: the length, its two checks, and the magic header.  The
    result is the value of the loop variables when the loop is entered. *)
Definition firmware_header (s : state) : outcome loop_vars :=
  let%ok (fw_length, s) := read_uint 4 s in
  if fw_length <? 4 + Z.of_nat (length FIRMWARE_MAGIC_HEADER) then
    Err (eprint (Err_fw_too_small fw_length) s)
  else if negb (fw_length mod 4 =? 0) then
    Err (eprint Err_fw_unaligned s)
  else
    let%ok (_, s) := READ_MAGIC_HEADER FIRMWARE_MAGIC_HEADER s in
    let fw_length := fw_length - Z.of_nat (length FIRMWARE_MAGIC_HEADER) in
    Ok {| fw_length := fw_length; chunks_done := 0; invert_endian := false |} s.

(** "On the first chunk, detect the SYNC word endianness": the value of
    [invert_endian] after the test, or [None] where the source returns -1. *)
Definition detect_sync (v : loop_vars) (chunk : list byte) : option bool :=
  if chunks_done v =? 0 then
    if memcmp chunk SYNC_INVERTED 4 =? 0 then Some true
    else if negb (memcmp chunk SYNC_CANONICAL 4 =? 0) then None
    else Some (invert_endian v)
  else Some (invert_endian v).

(** The body of the [while (fw_length > 0)] loop of step 5.  The value that
    [invert_u32_endianness] returns is dropped, as in the source. *)
Definition copy_chunk (v : loop_vars) (s : state) : outcome loop_vars :=
  let chunk_len := MIN sizeof_chunk (fw_length v) in
  let '(chunk, s) := fread (Z.to_nat chunk_len) s in
  let r := Z.of_nat (length chunk) in
  if negb (r =? chunk_len) then
    Err (eprint (Err_chunk_read r) s)
  else
    match detect_sync v chunk with
    | None =>
        Err (eprint (Err_sync (chunk !!! 0%nat) (chunk !!! 1%nat)
                       (chunk !!! 2%nat) (chunk !!! 3%nat)) s)
    | Some invert_endian =>
        let '(chunk, s) :=
          if invert_endian then
            match invert_u32_endianness chunk (Z.to_nat chunk_len) s with
            | Ok chunk' s' => (chunk', s')
            | Err s' => (chunk, s')
            | _ => (chunk, s)
            end
          else (chunk, s) in
        let '(r, s) := fwrite chunk s in
        if negb (r =? chunk_len) then
          Err (eprint (Err_write r) s)
        else
          Ok {| fw_length := fw_length v - chunk_len;
                chunks_done := chunks_done v + 1;
                invert_endian := invert_endian |} s
    end.

(** The loop itself, one round per unit of fuel. *)
Fixpoint copy_chunks (fuel : nat) (v : loop_vars) (s : state) : outcome unit :=
  if negb (fw_length v >? 0) then Ok tt s
  else
    match fuel with
    | O => OutOfFuel
    | S fuel' =>
        let%ok (v, s) := copy_chunk v s in
        copy_chunks fuel' v s
    end.

(** A round copies [sizeof_chunk] bytes unless it is the last one, so this
    many rounds are enough (see [chunk_rounds_enough]). *)
Definition chunk_rounds (v : loop_vars) : nat :=
  S (Z.to_nat (fw_length v / sizeof_chunk)).

Definition process_firmware (s : state) : outcome unit :=
  let%ok (v, s) := firmware_header s in
  copy_chunks (chunk_rounds v) v s.

(** The values the loop variables and the streams take at the head of the
    loop, in the call [process_firmware] started in state [s0]. *)
Inductive loop_head (s0 : state) : loop_vars -> state -> Prop :=
| head_entry v s :
    firmware_header s0 = Ok v s -> loop_head s0 v s
| head_next v s v' s' :
    loop_head s0 v s -> fw_length v > 0 -> copy_chunk v s = Ok v' s' ->
    loop_head s0 v' s'.

(** ** read_meta_field *)

(** What [fprintf("%s", buf)] prints of an array: the bytes before the first
    zero byte.  With no zero byte in the array the read runs past its end. *)
Fixpoint c_string (buf : list byte) : option (list byte) :=
  match buf with
  | [] => None
  | b :: buf' => if decide (b = x00) then Some [] else cons b <$> c_string buf'
  end.

Section WithStack.

(** [char buf[MAX_META_FIELD_LENGTH]] is not initialised: [uninit s i] is the
    byte that happens to lie in [buf[i]] when [read_meta_field] is entered in
    state [s].  Nothing is assumed about it. *)
Variable uninit : state -> nat -> byte.

Definition read_meta_field (s : state) : outcome unit :=
  let buf := map (uninit s) (seq 0 (Z.to_nat MAX_META_FIELD_LENGTH)) in
  let%ok (field_length, s) := read_uint 2 s in
  if field_length >? MAX_META_FIELD_LENGTH then
    Err (eprint Err_field_too_large s)
  else
    let '(got, s) := fread (Z.to_nat field_length) s in
    let buf := got ++ drop (length got) buf in
    let r := Z.of_nat (length got) in
    if negb (r =? field_length) then
      Err (eprint (Err_field_short r) s)
    else
      match c_string buf with
      | Some text => Ok tt (eprint (Meta_line text) s)
      | None => Undefined
      end.

(** ** process_bit_file *)

(** The [switch (field_type)] statement. *)
Definition dispatch (field_type : byte) (s : state) : outcome unit :=
  match field_type with
  | x61 | x62 | x63 | x64 => read_meta_field s
  | x65 => process_firmware s
  | _ => Err (eprint (Err_unknown_field field_type) s)
  end.

(** The [do ... while (field_type != 0x65)] loop.  Every round reads a tag
    byte, so [fuel] one above the length of the input is never used up. *)
Fixpoint read_fields (fuel : nat) (s : state) : outcome unit :=
  match fuel with
  | O => OutOfFuel
  | S fuel' =>
      let '(buf, s) := fread 1 s in
      let r := Z.of_nat (length buf) in
      if negb (r =? 1) then
        Err (eprint (Err_field_type_read r) s)
      else
        let field_type : byte := buf !!! 0%nat in
        let%ok (_, s) := dispatch field_type s in
        if negb (bool_decide (field_type = x65)) then read_fields fuel' s
        else Ok tt s
  end.

Definition process_bit_file (s : state) : outcome unit :=
  ignoring (READ_MAGIC_HEADER BIT_MAGIC_HEADER s)
    (fun s => read_fields (S (length (input s))) s).

(** [main] returns what [process_bit_file(stdin, stdout)] returns. *)
Definition main (s : state) : outcome unit := process_bit_file s.

End WithStack.

(** The exit status the parent process sees: the low 8 bits of the value
    [main] returns. *)
Definition exit_status (o : outcome unit) : option Z :=
  (fun rc => rc mod 256) <$> return_code o.

(** A run starts with nothing written and nothing printed. *)
Definition initial (stdin : list byte) (capacity : nat) : state :=
  {| input := stdin; output := []; room := capacity; diag := [] |}.

(** ** Specification-side definitions *)

(** The unsigned big-endian reading of a byte sequence. *)
Fixpoint big_endian (bs : list byte) : Z :=
  match bs with
  | [] => 0
  | b :: bs' => byte_val b * 256 ^ Z.of_nat (length bs') + big_endian bs'
  end.

(** Every 4-byte word with its bytes in reverse order; a tail of fewer than
    four bytes stays as it is. *)
Fixpoint swap_words (bs : list byte) : list byte :=
  match bs with
  | b0 :: b1 :: b2 :: b3 :: bs' => b3 :: b2 :: b1 :: b0 :: swap_words bs'
  | _ => bs
  end.

Definition is_sync_error (m : msg) : bool :=
  match m with Err_sync _ _ _ _ => true | _ => false end.

Definition is_invert_error (m : msg) : bool :=
  match m with Err_invert_size _ => true | _ => false end.

(** What the output is to receive for the bytes [bs] of the payload. *)
Definition corrected (invert : bool) (bs : list byte) : list byte :=
  if invert then swap_words bs else bs.

(** The four ways a round can end, when the length left is word-aligned. *)
Inductive round_result (v : loop_vars) (s : state) : outcome loop_vars -> Prop :=
| round_short_read :
    let c := Z.to_nat (MIN sizeof_chunk (fw_length v)) in
    length (take c (input s)) <> c ->
    round_result v s
      (Err (eprint (Err_chunk_read (Z.of_nat (length (take c (input s)))))
              (fread c s).2))
| round_bad_sync :
    let c := Z.to_nat (MIN sizeof_chunk (fw_length v)) in
    let chunk := take c (input s) in
    length chunk = c -> detect_sync v chunk = None ->
    round_result v s
      (Err (eprint (Err_sync (chunk !!! 0%nat) (chunk !!! 1%nat)
                      (chunk !!! 2%nat) (chunk !!! 3%nat)) (fread c s).2))
| round_short_write inv :
    let c := Z.to_nat (MIN sizeof_chunk (fw_length v)) in
    let chunk := take c (input s) in
    length chunk = c -> detect_sync v chunk = Some inv ->
    (room s < c)%nat ->
    round_result v s
      (Err {| input := drop c (input s);
              output := output s ++ take (room s) (corrected inv chunk);
              room := 0;
              diag := diag s ++ [Err_write (Z.of_nat (room s))] |})
| round_done inv :
    let c := Z.to_nat (MIN sizeof_chunk (fw_length v)) in
    let chunk := take c (input s) in
    length chunk = c -> detect_sync v chunk = Some inv ->
    (c <= room s)%nat ->
    round_result v s
      (Ok {| fw_length := fw_length v - Z.of_nat c;
             chunks_done := chunks_done v + 1;
             invert_endian := inv |}
          {| input := drop c (input s);
             output := output s ++ corrected inv chunk;
             room := (room s - c)%nat;
             diag := diag s |}).

(** The output file is as it was, and what was printed in between, if
    anything, is neither of the two messages of the firmware loop. *)
Definition untouched (s s' : state) : Prop :=
  output s' = output s /\ room s' = room s
  /\ exists ms, diag s' = diag s ++ ms
     /\ Forall (fun m => is_invert_error m = false /\ is_sync_error m = false) ms.

(** A call that returned without writing.  A call stopped by undefined
    behaviour has no final state to speak of. *)
Definition quiet {A : Type} (s : state) (o : outcome A) : Prop :=
  match o with
  | Ok _ s' => untouched s s'
  | Err s' => untouched s s'
  | Undefined => True
  | OutOfFuel => False
  end.

(** ** The container format, written out

    The byte sequences the parser accepts, built from their parts: what a
    well-formed .bit file is, as [process_bit_file] reads it. *)

Definition byte_of_Z (x : Z) : byte :=
  match Byte.of_N (Z.to_N (x mod 256)) with
  | Some b => b
  | None => x00
  end.

(** A 16-bit and a 32-bit length prefix, most significant byte first. *)
Definition be16 (x : Z) : list byte := [byte_of_Z (x / 2 ^ 8); byte_of_Z x].

Definition be32 (x : Z) : list byte :=
  [byte_of_Z (x / 2 ^ 24); byte_of_Z (x / 2 ^ 16); byte_of_Z (x / 2 ^ 8); byte_of_Z x].

(** A metadata field: tag, length of the body, and the body, which is the
    text and the zero byte that ends it. *)
Definition meta_field (tag : byte) (text : list byte) : list byte :=
  tag :: be16 (Z.of_nat (length text) + 1) ++ text ++ [x00].

(** The firmware field: tag 65, the length of what follows, the embedded
    magic header, the payload. *)
Definition firmware_field (payload : list byte) : list byte :=
  x65 :: be32 (48 + Z.of_nat (length payload)) ++ FIRMWARE_MAGIC_HEADER ++ payload.

Definition bit_file (metas : list (byte * list byte)) (payload : list byte)
  : list byte :=
  BIT_MAGIC_HEADER ++ concat (map (fun m => meta_field m.1 m.2) metas)
    ++ firmware_field payload.

(** The tags of the metadata fields. *)
Definition is_meta_tag (b : byte) : Prop := b = x61 \/ b = x62 \/ b = x63 \/ b = x64.


(** Of [n] bytes, how many lie in chunks of [sizeof_chunk] bytes that are
    complete. *)
Definition whole_chunks (n : nat) : nat :=
  Z.to_nat (sizeof_chunk * (Z.of_nat n / sizeof_chunk)).

(** * Proofs *)

(** [lia], with [/] and [mod] by a constant. *)
Ltac div_lia := zify; Z.to_euclidean_division_equations; lia.

(** ** The big-endian reader *)

Lemma byte_val_range (b : byte) : 0 <= byte_val b < 256.
Proof.
  unfold byte_val. pose proof (Byte.to_N_bounded b). lia.
Qed.

Lemma land_shifted_byte (a b : Z) : 0 <= b < 256 -> Z.land (Z.shiftl a 8) b = 0.
Proof.
  intros Hb. apply Z.bits_inj'. intros n Hn.
  rewrite Z.land_spec, Z.bits_0.
  destruct (Z.ltb_spec n 8).
  - rewrite Z.shiftl_spec_low by lia. reflexivity.
  - rewrite <- (Z.mod_small b (2 ^ 8)) by (change (2 ^ 8) with 256; lia).
    rewrite Z.mod_pow2_bits_high by lia. apply andb_false_r.
Qed.

Lemma lor_low_byte (a b : Z) :
  0 <= b < 256 -> Z.lor (Z.shiftl a 8) b = a * 256 + b.
Proof.
  intros Hb.
  rewrite <- Z.lxor_lor by (apply land_shifted_byte; lia).
  rewrite <- Z.add_nocarry_lxor by (apply land_shifted_byte; lia).
  rewrite Z.shiftl_mul_pow2 by lia. reflexivity.
Qed.

Lemma big_endian_range (bs : list byte) :
  0 <= big_endian bs < 256 ^ Z.of_nat (length bs).
Proof.
  induction bs as [|b bs IH]; [simpl; lia|].
  cbn [big_endian length]. pose proof (byte_val_range b).
  rewrite Nat2Z.inj_succ, Z.pow_succ_r by lia. nia.
Qed.

Lemma shift_in_small (acc : Z) (b : byte) :
  0 <= acc < 2 ^ 24 -> shift_in acc b = acc * 256 + byte_val b.
Proof.
  intros Hacc. unfold shift_in. pose proof (byte_val_range b).
  rewrite Z.mod_small.
  - apply lor_low_byte; lia.
  - rewrite Z.shiftl_mul_pow2 by lia. lia.
Qed.

(** As long as the bytes read so far and those to come fit in 32 bits, the
    accumulation never wraps. *)
Lemma fold_shift_in (bs : list byte) (acc : Z) (k : nat) :
  (k + length bs <= 4)%nat -> 0 <= acc < 256 ^ Z.of_nat k ->
  fold_left shift_in bs acc = acc * 256 ^ Z.of_nat (length bs) + big_endian bs.
Proof.
  revert acc k. induction bs as [|b bs IH]; intros acc k Hk Hacc.
  - simpl. lia.
  - cbn [fold_left big_endian length] in *.
    pose proof (byte_val_range b) as Hb.
    assert (256 ^ Z.of_nat k <= 256 ^ 3) by (apply Z.pow_le_mono_r; lia).
    rewrite shift_in_small by lia.
    rewrite (IH _ (S k)).
    + rewrite Nat2Z.inj_succ, Z.pow_succ_r by lia. ring.
    + lia.
    + rewrite Nat2Z.inj_succ, Z.pow_succ_r by lia. lia.
Qed.

Lemma read_uint_ok (n : nat) (bs rest : list byte) (s : state) :
  length bs = n -> input s = bs ++ rest ->
  read_uint n s =
    Ok (fold_left shift_in bs 0)
       {| input := rest; output := output s; room := room s; diag := diag s |}.
Proof.
  intros Hlen Hin. unfold read_uint, fread. rewrite Hin.
  rewrite take_app_length', drop_app_length' by done.
  rewrite Hlen, Z.eqb_refl. reflexivity.
Qed.

Lemma read_uint_short (n : nat) (s : state) :
  (length (input s) < n)%nat ->
  read_uint n s =
    Err {| input := []; output := output s; room := room s;
           diag := diag s ++ [Err_read_uint (Z.of_nat n) (Z.of_nat (length (input s)))] |}.
Proof.
  intros Hlen. unfold read_uint, fread.
  rewrite take_ge, drop_ge by lia.
  destruct (Z.eqb_spec (Z.of_nat (length (input s))) (Z.of_nat n)); [lia|].
  reflexivity.
Qed.

(** C3: for [n] from 1 to 4 and [n] bytes [bs] at the front of the input,
    [read_uint] returns 0 with the out-parameter set to the unsigned
    big-endian value of [bs], having consumed exactly [bs]; that value is
    what the accumulation [res = (res << 8) | byte] in stream order gives;
    with fewer than [n] bytes left the call returns -1; and the bytes
    00 00 01 00 read as 256. *)
Theorem read_uint_big_endian (n : nat) (s : state) :
  (1 <= n <= 4)%nat ->
  (forall bs rest, length bs = n -> input s = bs ++ rest ->
     read_uint n s =
       Ok (big_endian bs)
          {| input := rest; output := output s; room := room s; diag := diag s |}
     /\ fold_left (fun res b => Z.lor (Z.shiftl res 8 mod 2 ^ 32) (byte_val b)) bs 0
        = big_endian bs)
  /\ ((length (input s) < n)%nat -> return_code (read_uint n s) = Some (-1))
  /\ big_endian [x00; x00; x01; x00] = 256.
Proof.
  intros Hn. split; [|split].
  - intros bs rest Hlen Hin.
    assert (fold_left shift_in bs 0 = big_endian bs) as E.
    { rewrite (fold_shift_in bs 0 0) by (simpl; lia). lia. }
    split; [|exact E].
    rewrite (read_uint_ok n bs rest) by done. by rewrite E.
  - intros Hshort. by rewrite read_uint_short.
  - reflexivity.
Qed.

Lemma read_uint_big_endian_witness :
  read_uint 4 (initial [x00; x00; x01; x00; x65] 0)
  = Ok 256 {| input := [x65]; output := []; room := 0%nat; diag := [] |}.
Proof.
  destruct (read_uint_big_endian 4 (initial [x00; x00; x01; x00; x65] 0)) as [H _];
    [lia|].
  destruct (H [x00; x00; x01; x00] [x65]) as [E _]; [reflexivity..|].
  exact E.
Defined.

(** ** The endianness corrector *)

(** One round of the swap loop on the word at offset [i]. *)
Lemma invert_round (pre post : list byte) (a b c d : byte) (i : nat) :
  i = length pre ->
  let buf := pre ++ a :: b :: c :: d :: post in
  let tmp := buf !!! i in
  let buf := <[i := buf !!! (i + 3)%nat]> buf in
  let buf := <[(i + 3)%nat := tmp]> buf in
  let tmp := buf !!! (i + 1)%nat in
  let buf := <[(i + 1)%nat := buf !!! (i + 2)%nat]> buf in
  let buf := <[(i + 2)%nat := tmp]> buf in
  buf = pre ++ d :: c :: b :: a :: post.
Proof.
  intros ->. cbv zeta.
  repeat first
    [ rewrite insert_app_r_alt by lia
    | rewrite lookup_total_app_r by lia ].
  replace (length pre - length pre)%nat with 0%nat by lia.
  replace (length pre + 1 - length pre)%nat with 1%nat by lia.
  replace (length pre + 2 - length pre)%nat with 2%nat by lia.
  replace (length pre + 3 - length pre)%nat with 3%nat by lia.
  reflexivity.
Qed.

(** Induction over a buffer one 4-byte word at a time. *)
Lemma words_ind (P : list byte -> Prop) :
  (forall bs, (length bs < 4)%nat -> P bs) ->
  (forall a b c d bs, P bs -> P (a :: b :: c :: d :: bs)) ->
  forall bs, P bs.
Proof.
  intros Hshort Hword. fix IH 1.
  intros [|a [|b [|c [|d bs]]]]; try (apply Hshort; simpl; lia).
  apply Hword, IH.
Qed.

Lemma swap_words_length (bs : list byte) : length (swap_words bs) = length bs.
Proof.
  induction bs as [bs Hs|a b c d bs IH] using words_ind.
  - by destruct bs as [|? [|? [|? [|? ?]]]]; simpl in *; try lia.
  - cbn [swap_words length]. by rewrite IH.
Qed.

Lemma swap_words_short (bs : list byte) : (length bs < 4)%nat -> swap_words bs = bs.
Proof. by destruct bs as [|? [|? [|? [|? ?]]]]; simpl; try lia. Qed.

Lemma swap_words_involutive (bs : list byte) : swap_words (swap_words bs) = bs.
Proof.
  induction bs as [bs Hs|a b c d bs IH] using words_ind.
  - rewrite (swap_words_short bs Hs). by apply swap_words_short.
  - cbn [swap_words]. by rewrite IH.
Qed.

Lemma swap_words_app (xs ys : list byte) :
  Z.of_nat (length xs) mod 4 = 0 ->
  swap_words (xs ++ ys) = swap_words xs ++ swap_words ys.
Proof.
  induction xs as [xs Hs|a b c d xs IH] using words_ind; intros Hmod.
  - assert (length xs = 0%nat) as E by div_lia.
    by destruct xs.
  - cbn [swap_words app]. rewrite IH; [done|].
    cbn [length] in Hmod. div_lia.
Qed.

(** The loop of [invert_u32_endianness], from offset [i] on: the words of
    [mid] are swapped, what lies before and after is left alone. *)
Lemma invert_loop_spec (mid : list byte) :
  forall (fuel i n : nat) (pre post : list byte),
    i = length pre -> n = (i + length mid)%nat ->
    Z.of_nat (length mid) mod 4 = 0 ->
    (length mid <= 4 * fuel)%nat ->
    invert_loop fuel i n (pre ++ mid ++ post) = pre ++ swap_words mid ++ post.
Proof.
  induction mid as [mid Hs|a b c d mid IH] using words_ind;
    intros fuel i n pre post Hi Hn Hmod Hfuel.
  - assert (length mid = 0%nat) as E by div_lia.
    destruct mid; [|done]. cbn [length] in Hn.
    destruct fuel; [done|]. simpl.
    destruct (Nat.ltb_spec i n); [lia|done].
  - cbn [length] in *. destruct fuel as [|fuel]; [lia|].
    cbn [invert_loop swap_words].
    destruct (Nat.ltb_spec i n); [|lia].
    pose proof (invert_round pre (mid ++ post) a b c d i Hi) as E.
    cbv zeta in E. cbn [app]. rewrite E.
    specialize (IH fuel (i + 4)%nat n (pre ++ [d; c; b; a]) post).
    rewrite <- !app_assoc in IH. cbn [app] in IH. apply IH.
    + rewrite length_app. simpl. lia.
    + lia.
    + div_lia.
    + lia.
Qed.

Lemma invert_u32_endianness_spec (buf : list byte) (n : nat) (s : state) :
  Z.of_nat n mod 4 = 0 -> (n <= length buf)%nat ->
  invert_u32_endianness buf n s = Ok (swap_words (take n buf) ++ drop n buf) s.
Proof.
  intros Hmod Hlen. unfold invert_u32_endianness.
  rewrite Hmod. cbn [Z.eqb negb]. f_equal.
  rewrite <- (take_drop n buf) at 1.
  apply (invert_loop_spec (take n buf) n 0 n [] (drop n buf)).
  - done.
  - rewrite length_take. lia.
  - rewrite length_take. by replace (n `min` length buf)%nat with n by lia.
  - rewrite length_take. lia.
Qed.

(** C9: on a buffer of at least [n] bytes, [n] a multiple of 4, two calls
    of [invert_u32_endianness] in a row both return 0 and leave the buffer
    with its original contents. *)
Theorem invert_u32_endianness_involutive (buf : list byte) (n : nat) (s : state) :
  Z.of_nat n mod 4 = 0 -> (n <= length buf)%nat ->
  (let%ok (buf', s') := invert_u32_endianness buf n s in
   invert_u32_endianness buf' n s') = Ok buf s.
Proof.
  intros Hmod Hlen.
  rewrite invert_u32_endianness_spec by done. cbn [bind].
  assert (length (swap_words (take n buf)) = n) as Hl.
  { rewrite swap_words_length, length_take. lia. }
  rewrite invert_u32_endianness_spec; [|done|rewrite length_app, Hl; lia].
  rewrite take_app_length', drop_app_length' by done.
  by rewrite swap_words_involutive, take_drop.
Qed.

Lemma invert_u32_endianness_involutive_witness :
  (let%ok (buf', s') :=
     invert_u32_endianness [xaa; x99; x55; x66; x01; x02; x03; x04] 8 (initial [] 0) in
   invert_u32_endianness buf' 8 s')
  = Ok [xaa; x99; x55; x66; x01; x02; x03; x04] (initial [] 0).
Proof.
  apply (invert_u32_endianness_involutive
           [xaa; x99; x55; x66; x01; x02; x03; x04] 8 (initial [] 0)).
  - reflexivity.
  - simpl. lia.
Defined.

(** ** Magic headers *)

Lemma byte_val_inj (x y : byte) : byte_val x = byte_val y -> x = y.
Proof.
  unfold byte_val. intros E. apply N2Z.inj in E.
  pose proof (Byte.of_to_N x) as Hx. pose proof (Byte.of_to_N y) as Hy.
  rewrite E in Hx. congruence.
Qed.

(** [memcmp] returns 0 exactly when the first [n] bytes agree. *)
Lemma memcmp_zero (n : nat) :
  forall a b : list byte,
    (n <= length a)%nat -> (n <= length b)%nat ->
    memcmp a b n = 0 <-> take n a = take n b.
Proof.
  induction n as [|n IH]; intros a b Ha Hb.
  { rewrite !take_0. split; intros _; reflexivity. }
  destruct a as [|x a]; [simpl in Ha; lia|].
  destruct b as [|y b]; [simpl in Hb; lia|].
  cbn [memcmp take length] in *.
  destruct (decide (x = y)) as [->|Hne].
  - rewrite IH by lia. split; [by intros ->|congruence].
  - split; [|congruence].
    intros E. destruct Hne. apply byte_val_inj. lia.
Qed.

Lemma memcmp_same (a rest b : list byte) :
  a = b -> memcmp (a ++ rest) b (length b) = 0.
Proof.
  intros ->. apply memcmp_zero.
  - rewrite length_app. lia.
  - lia.
  - by rewrite take_app_length, take_ge.
Qed.

Lemma READ_MAGIC_HEADER_ok (expected rest : list byte) (s : state) :
  input s = expected ++ rest ->
  READ_MAGIC_HEADER expected s =
    Ok tt {| input := rest; output := output s; room := room s; diag := diag s |}.
Proof.
  intros Hin. unfold READ_MAGIC_HEADER, read_magic_header, fread. rewrite Hin.
  rewrite take_app_length, drop_app_length, Z.eqb_refl. cbn [negb].
  rewrite <- (app_nil_r expected) at 1.
  rewrite memcmp_same by done. reflexivity.
Qed.

(** ** The firmware header: steps 1 to 4 *)

Lemma read_uint_value (n : nat) (bs rest : list byte) (s : state) :
  (n <= 4)%nat -> length bs = n -> input s = bs ++ rest ->
  read_uint n s =
    Ok (big_endian bs)
       {| input := rest; output := output s; room := room s; diag := diag s |}.
Proof.
  intros Hn Hlen Hin. rewrite (read_uint_ok n bs rest) by done.
  rewrite (fold_shift_in bs 0 0) by (simpl; lia). f_equal; lia.
Qed.

Lemma firmware_header_too_small (s : state) (len rest : list byte) :
  length len = 4%nat -> input s = len ++ rest ->
  big_endian len < 52 ->
  firmware_header s =
    Err {| input := rest; output := output s; room := room s;
           diag := diag s ++ [Err_fw_too_small (big_endian len)] |}.
Proof.
  intros Hlen Hin Hsmall. unfold firmware_header.
  rewrite (read_uint_value 4 len rest) by (try done; lia). cbn [bind].
  change (4 + Z.of_nat (length FIRMWARE_MAGIC_HEADER)) with 52.
  destruct (Z.ltb_spec (big_endian len) 52); [reflexivity | lia].
Qed.

Lemma firmware_header_unaligned (s : state) (len rest : list byte) :
  length len = 4%nat -> input s = len ++ rest ->
  52 <= big_endian len -> big_endian len mod 4 <> 0 ->
  firmware_header s =
    Err {| input := rest; output := output s; room := room s;
           diag := diag s ++ [Err_fw_unaligned] |}.
Proof.
  intros Hlen Hin Hbig Hmod. unfold firmware_header.
  rewrite (read_uint_value 4 len rest) by (try done; lia). cbn [bind].
  change (4 + Z.of_nat (length FIRMWARE_MAGIC_HEADER)) with 52.
  destruct (Z.ltb_spec (big_endian len) 52); [lia|].
  destruct (Z.eqb_spec (big_endian len mod 4) 0); [lia | reflexivity].
Qed.

Lemma firmware_header_ok (s : state) (len rest : list byte) :
  length len = 4%nat -> input s = len ++ FIRMWARE_MAGIC_HEADER ++ rest ->
  52 <= big_endian len -> big_endian len mod 4 = 0 ->
  firmware_header s =
    Ok {| fw_length := big_endian len - 48; chunks_done := 0; invert_endian := false |}
       {| input := rest; output := output s; room := room s; diag := diag s |}.
Proof.
  intros Hlen Hin Hbig Hmod. unfold firmware_header.
  rewrite (read_uint_value 4 len (FIRMWARE_MAGIC_HEADER ++ rest)) by (try done; lia).
  cbn [bind].
  change (4 + Z.of_nat (length FIRMWARE_MAGIC_HEADER)) with 52.
  destruct (Z.ltb_spec (big_endian len) 52); [lia|].
  rewrite Hmod. cbn [Z.eqb negb].
  rewrite (READ_MAGIC_HEADER_ok FIRMWARE_MAGIC_HEADER rest) by done.
  reflexivity.
Qed.

(** C5: when the 32-bit length that opens a firmware field is below 52 or
    not a multiple of 4, [process_firmware] returns -1 after printing the
    matching message; the input is left right after the four length bytes,
    so no byte of the embedded magic header or of the payload was read, and
    nothing was written. *)
Theorem process_firmware_rejects_length
    (s : state) (b0 b1 b2 b3 : byte) (rest : list byte) :
  input s = b0 :: b1 :: b2 :: b3 :: rest ->
  big_endian [b0; b1; b2; b3] < 4 + 48 \/ big_endian [b0; b1; b2; b3] mod 4 <> 0 ->
  exists m : msg,
    process_firmware s =
      Err {| input := rest; output := output s; room := room s;
             diag := diag s ++ [m] |}
    /\ (m = Err_fw_too_small (big_endian [b0; b1; b2; b3]) \/ m = Err_fw_unaligned).
Proof.
  intros Hin Hbad. unfold process_firmware.
  destruct (Z.lt_ge_cases (big_endian [b0; b1; b2; b3]) 52) as [Hsmall|Hbig].
  - eexists. rewrite (firmware_header_too_small s [b0; b1; b2; b3] rest) by done.
    split; [reflexivity | by left].
  - eexists. rewrite (firmware_header_unaligned s [b0; b1; b2; b3] rest);
      [split; [reflexivity | by right] | done | done | done | lia].
Qed.

Lemma process_firmware_rejects_length_witness :
  exists m : msg,
    process_firmware (initial [x00; x00; x00; x36; xff; xff] 10) =
      Err {| input := [xff; xff]; output := []; room := 10%nat; diag := [] ++ [m] |}
    /\ (m = Err_fw_too_small (big_endian [x00; x00; x00; x36]) \/ m = Err_fw_unaligned).
Proof.
  apply (process_firmware_rejects_length
           (initial [x00; x00; x00; x36; xff; xff] 10) x00 x00 x00 x36 [xff; xff]).
  - reflexivity.
  - right. vm_compute. discriminate.
Defined.

(** ** One round of the copy loop *)

Lemma MIN_chunk (fw : Z) :
  0 < fw -> fw mod 4 = 0 ->
  0 < MIN sizeof_chunk fw <= sizeof_chunk
  /\ MIN sizeof_chunk fw <= fw
  /\ MIN sizeof_chunk fw mod 4 = 0
  /\ (fw - MIN sizeof_chunk fw) mod 4 = 0
  /\ (MIN sizeof_chunk fw < sizeof_chunk -> fw - MIN sizeof_chunk fw = 0).
Proof.
  intros Hpos Hmod. unfold MIN, sizeof_chunk.
  destruct (Z.ltb_spec 4096 fw); repeat split; try lia; div_lia.
Qed.

Lemma corrected_length (inv : bool) (bs : list byte) :
  length (corrected inv bs) = length bs.
Proof. destruct inv; [apply swap_words_length | done]. Qed.

Lemma corrected_app (inv : bool) (xs ys : list byte) :
  Z.of_nat (length xs) mod 4 = 0 ->
  corrected inv (xs ++ ys) = corrected inv xs ++ corrected inv ys.
Proof. destruct inv; [apply swap_words_app | done]. Qed.

(** The chunk as it is handed to [fwrite]. *)
Lemma invert_chunk (inv : bool) (chunk : list byte) (s : state) :
  Z.of_nat (length chunk) mod 4 = 0 ->
  (if inv then
     match invert_u32_endianness chunk (length chunk) s with
     | Ok chunk' s' => (chunk', s')
     | Err s' => (chunk, s')
     | _ => (chunk, s)
     end
   else (chunk, s)) = (corrected inv chunk, s).
Proof.
  intros Hmod. destruct inv; [|done].
  rewrite invert_u32_endianness_spec by done.
  by rewrite take_ge, drop_ge, app_nil_r by lia.
Qed.

Lemma copy_chunk_cases (v : loop_vars) (s : state) :
  0 < fw_length v -> fw_length v mod 4 = 0 ->
  round_result v s (copy_chunk v s).
Proof.
  intros Hpos Hmod.
  destruct (MIN_chunk (fw_length v) Hpos Hmod) as (Hc & Hle & Hc4 & _).
  unfold copy_chunk, fread.
  set (c := Z.to_nat (MIN sizeof_chunk (fw_length v))).
  set (chunk := take c (input s)).
  destruct (Z.eqb_spec (Z.of_nat (length chunk)) (MIN sizeof_chunk (fw_length v)))
    as [Hlen|Hlen]; cbn [negb].
  2: { apply round_short_read. fold c. fold chunk. lia. }
  assert (length chunk = c) as Hlen' by lia.
  destruct (detect_sync v chunk) as [inv|] eqn:Hsync.
  2: { by apply round_bad_sync. }
  pose proof (invert_chunk inv chunk
    {| input := drop c (input s); output := output s; room := room s;
       diag := diag s |}) as Hinv.
  rewrite Hlen' in Hinv. rewrite Hinv by (rewrite <- Hlen', Hlen; exact Hc4).
  unfold fwrite. cbn [input output room diag].
  rewrite length_take, corrected_length, Hlen'.
  destruct (Z.eqb_spec (Z.of_nat (room s `min` c)) (MIN sizeof_chunk (fw_length v)))
    as [Hw|Hw]; cbn [negb].
  - assert (c <= room s)%nat as Hroom by lia.
    rewrite take_ge by (rewrite corrected_length; lia).
    replace (room s `min` c)%nat with c by lia.
    replace (MIN sizeof_chunk (fw_length v)) with (Z.of_nat c) by lia.
    by apply round_done.
  - assert (room s < c)%nat as Hroom by lia.
    replace (room s `min` c)%nat with (room s) by lia.
    replace (room s - room s)%nat with 0%nat by lia.
    unfold eprint. cbn [input output room diag].
    by apply round_short_write.
Qed.

(** ** The copy loop *)

Lemma copy_chunks_end (fuel : nat) (v : loop_vars) (s : state) :
  fw_length v <= 0 -> copy_chunks fuel v s = Ok tt s.
Proof.
  intros H. destruct fuel; simpl; by destruct (Z.gtb_spec (fw_length v) 0); try lia.
Qed.

Lemma copy_chunks_round (fuel : nat) (v : loop_vars) (s : state) :
  0 < fw_length v ->
  copy_chunks (S fuel) v s =
    (let%ok (v', s') := copy_chunk v s in copy_chunks fuel v' s').
Proof.
  intros H. simpl. by destruct (Z.gtb_spec (fw_length v) 0); try lia.
Qed.

Lemma detect_sync_later (v : loop_vars) (chunk : list byte) (inv : bool) :
  detect_sync v chunk = Some inv -> chunks_done v <> 0 -> inv = invert_endian v.
Proof.
  unfold detect_sync. destruct (Z.eqb_spec (chunks_done v) 0); [done|].
  by intros [= <-].
Qed.

Lemma detect_sync_first (v : loop_vars) (chunk : list byte) :
  detect_sync v chunk = None -> chunks_done v = 0.
Proof.
  unfold detect_sync. by destruct (Z.eqb_spec (chunks_done v) 0).
Qed.

(** The bytes still to copy, split at the end of the next chunk. *)
Lemma payload_split (fw : Z) (l : list byte) :
  0 < fw ->
  take (Z.to_nat fw) l =
    take (Z.to_nat (MIN sizeof_chunk fw)) l
      ++ take (Z.to_nat (fw - MIN sizeof_chunk fw))
           (drop (Z.to_nat (MIN sizeof_chunk fw)) l).
Proof.
  intros Hpos. rewrite take_take_drop. f_equal.
  unfold MIN, sizeof_chunk. destruct (Z.ltb_spec 4096 fw); lia.
Qed.

(** What one call of the loop does, whatever the input holds: it returns;
    what it appends to the output is a prefix of the payload, corrected in
    one and the same mode, and the whole of it when the loop returns 0; it
    prints nothing but read, write and SYNC errors, and a SYNC error only
    in the first round, before anything is written. *)
Lemma copy_chunks_run (fuel : nat) :
  forall (v : loop_vars) (s : state),
    0 <= chunks_done v -> 0 <= fw_length v -> fw_length v mod 4 = 0 ->
    fw_length v <= sizeof_chunk * Z.of_nat fuel ->
    exists (s' : state) (inv : bool) (w : list byte) (ms : list msg),
      (copy_chunks fuel v s = Ok tt s' /\ length w = Z.to_nat (fw_length v) /\ ms = []
       \/ copy_chunks fuel v s = Err s')
      /\ output s' = output s ++ w
      /\ diag s' = diag s ++ ms
      /\ w `prefix_of` corrected inv (take (Z.to_nat (fw_length v)) (input s))
      /\ (chunks_done v <> 0 -> inv = invert_endian v)
      /\ Forall (fun m => is_invert_error m = false
                          /\ (is_sync_error m = true -> chunks_done v = 0 /\ w = []))
           ms.
Proof.
  induction fuel as [|fuel IH]; intros v s Hcd Hfw Hmod Hfuel.
  - exists s, (invert_endian v), [], [].
    rewrite copy_chunks_end by (unfold sizeof_chunk in *; lia).
    rewrite !app_nil_r. repeat split; try done.
    + left. split; [done|]. split; [|done]. unfold sizeof_chunk in *. simpl. lia.
    + apply prefix_nil.
  - destruct (Z.eq_dec (fw_length v) 0) as [Hz|Hnz].
    { exists s, (invert_endian v), [], [].
      rewrite copy_chunks_end by lia.
      rewrite !app_nil_r. repeat split; try done.
      - left. split; [done|]. rewrite Hz. done.
      - apply prefix_nil. }
    assert (0 < fw_length v) as Hpos by lia.
    rewrite copy_chunks_round by done.
    destruct (MIN_chunk (fw_length v) Hpos Hmod) as (Hc & Hle & Hc4 & Hrest4 & _).
    pose proof (payload_split (fw_length v) (input s) Hpos) as Hsplit.
    destruct (copy_chunk_cases v s Hpos Hmod) as [c Hlen|c chunk Hlen Hsync
      |inv c chunk Hlen Hsync Hroom|inv c chunk Hlen Hsync Hroom].
    + eexists _, (invert_endian v), [], [_]. cbn [bind].
      split; [by right|]. unfold eprint, fread. cbn [snd input output room diag].
      rewrite app_nil_r. repeat split; try done.
      * apply prefix_nil.
      * by apply Forall_singleton.
    + eexists _, (invert_endian v), [], [_]. cbn [bind].
      split; [by right|]. unfold eprint, fread. cbn [snd input output room diag].
      rewrite app_nil_r. repeat split; try done.
      * apply prefix_nil.
      * apply Forall_singleton. split; [done|]. intros _.
        split; [by apply (detect_sync_first v chunk) | done].
    + eexists _, inv, (take (room s) (corrected inv chunk)), [_]. cbn [bind].
      split; [by right|]. cbn [input output room diag].
      repeat split; try done.
      * rewrite Hsplit. fold c. fold chunk.
        rewrite corrected_app by (rewrite Hlen; unfold c; rewrite Z2Nat.id; lia).
        etrans; [apply prefix_take | apply prefix_app_r; done].
      * intros Hne. by apply (detect_sync_later v chunk).
      * by apply Forall_singleton.
    + cbn [bind].
      assert (Z.of_nat c = MIN sizeof_chunk (fw_length v)) as Hc_eq by (unfold c; lia).
      assert (0 <= chunks_done v + 1) as H1 by lia.
      assert (0 <= fw_length v - Z.of_nat c) as H2 by lia.
      assert ((fw_length v - Z.of_nat c) mod 4 = 0) as H3 by (by rewrite Hc_eq).
      assert (fw_length v - Z.of_nat c <= sizeof_chunk * Z.of_nat fuel) as H4.
      { rewrite Hc_eq. unfold sizeof_chunk, MIN in *.
        destruct (Z.ltb_spec 4096 (fw_length v)); lia. }
      match goal with |- context [copy_chunks fuel ?v1 ?s1] =>
        destruct (IH v1 s1 H1 H2 H3 H4)
          as (s' & inv' & w' & ms & Hres & Hout & Hdiag & Hpre & Hinv & Hms)
      end.
      cbn [fw_length chunks_done invert_endian input output room diag] in *.
      assert (inv' = inv) as Einv by (apply Hinv; lia). subst inv'.
      exists s', inv, (corrected inv chunk ++ w'), ms.
      repeat split.
      * destruct Hres as [(-> & Hw & Hnil) | ->]; [left|by right].
        split; [done|]. split; [|done].
        rewrite length_app, corrected_length, Hlen, Hw. unfold c. lia.
      * by rewrite Hout, app_assoc.
      * done.
      * rewrite Hsplit. fold c. fold chunk.
        rewrite corrected_app by (rewrite Hlen; unfold c; rewrite Z2Nat.id; lia).
        apply prefix_app. unfold c in Hpre. rewrite Z2Nat.id in Hpre by lia. done.
      * intros Hne. by apply (detect_sync_later v chunk).
      * eapply Forall_impl; [exact Hms|]. intros m [Hi Hs]. split; [done|].
        intros Hm. destruct (Hs Hm) as [Hzero _]. lia.
Qed.

(** When the whole payload [p] is there to read and the output takes it,
    the loop copies it all, in the mode [inv] the first round settles on. *)
Lemma copy_chunks_copies (fuel : nat) :
  forall (p rest : list byte) (v : loop_vars) (s : state) (inv : bool),
    0 <= chunks_done v ->
    fw_length v = Z.of_nat (length p) -> fw_length v mod 4 = 0 ->
    fw_length v <= sizeof_chunk * Z.of_nat fuel ->
    input s = p ++ rest -> (length p <= room s)%nat ->
    detect_sync v (take (Z.to_nat (MIN sizeof_chunk (fw_length v))) p) = Some inv ->
    copy_chunks fuel v s =
      Ok tt {| input := rest; output := output s ++ corrected inv p;
               room := (room s - length p)%nat; diag := diag s |}.
Proof.
  induction fuel as [|fuel IH]; intros p rest v s inv Hcd Hfw Hmod Hfuel Hin Hroom Hsync.
  - rewrite copy_chunks_end by (unfold sizeof_chunk in *; lia).
    assert (p = []) as -> by (apply length_zero_iff_nil; unfold sizeof_chunk in *; lia).
    destruct s; cbn in *. subst. destruct inv; cbn; by rewrite app_nil_r, Nat.sub_0_r.
  - destruct (Z.eq_dec (fw_length v) 0) as [Hz|Hnz].
    { rewrite copy_chunks_end by lia.
      assert (p = []) as -> by (apply length_zero_iff_nil; lia).
      destruct s; cbn in *. subst. destruct inv; cbn; by rewrite app_nil_r, Nat.sub_0_r. }
    assert (0 < fw_length v) as Hpos by lia.
    rewrite copy_chunks_round by done.
    destruct (MIN_chunk (fw_length v) Hpos Hmod) as (Hc & Hle & Hc4 & Hrest4 & _).
    assert (take (Z.to_nat (MIN sizeof_chunk (fw_length v))) (input s)
            = take (Z.to_nat (MIN sizeof_chunk (fw_length v))) p) as Hchunk.
    { rewrite Hin. apply take_app_le. lia. }
    assert (length (take (Z.to_nat (MIN sizeof_chunk (fw_length v))) p)
            = Z.to_nat (MIN sizeof_chunk (fw_length v))) as Hlenp.
    { rewrite length_take. lia. }
    destruct (copy_chunk_cases v s Hpos Hmod) as [c Hlen|c chunk Hlen Hbad
      |inv0 c chunk Hlen Hsync0 Hshort|inv0 c chunk Hlen Hsync0 Hfits].
    + exfalso. apply Hlen. unfold c. by rewrite Hchunk.
    + exfalso. unfold chunk, c in Hbad. rewrite Hchunk in Hbad. congruence.
    + exfalso. unfold c in Hshort. lia.
    + unfold chunk, c in Hsync0. rewrite Hchunk in Hsync0.
      assert (inv0 = inv) as E by congruence. subst inv0.
      cbn [bind]. unfold chunk. fold c in Hchunk. rewrite Hchunk.
      rewrite (IH (drop c p) rest _ _ inv);
        cbn [fw_length chunks_done invert_endian input output room diag].
      * f_equal. f_equal.
        -- rewrite <- app_assoc, <- corrected_app, take_drop; [done|].
           fold c in Hlenp. rewrite Hlenp. unfold c. rewrite Z2Nat.id; lia.
        -- rewrite length_drop. lia.
      * lia.
      * rewrite length_drop. lia.
      * unfold c. rewrite Z2Nat.id by lia. done.
      * unfold c. rewrite Z2Nat.id by lia. unfold sizeof_chunk, MIN in *.
        destruct (Z.ltb_spec 4096 (fw_length v)); lia.
      * rewrite Hin. apply drop_app_le. unfold c. lia.
      * rewrite length_drop. lia.
      * unfold detect_sync. cbn [chunks_done invert_endian].
        destruct (Z.eqb_spec (chunks_done v + 1) 0); [lia | done].
Qed.

(** ** What the readers leave untouched *)

Lemma untouched_refl (s : state) : untouched s s.
Proof. repeat split. exists []. by rewrite app_nil_r. Qed.

Lemma untouched_trans (s1 s2 s3 : state) :
  untouched s1 s2 -> untouched s2 s3 -> untouched s1 s3.
Proof.
  intros (Ho1 & Hr1 & ms1 & Hd1 & Hf1) (Ho2 & Hr2 & ms2 & Hd2 & Hf2).
  repeat split; [congruence..|].
  exists (ms1 ++ ms2). rewrite Hd2, Hd1, app_assoc. split; [done|].
  by apply Forall_app.
Qed.

Lemma untouched_eprint (s s' : state) (m : msg) :
  untouched s s' -> is_invert_error m = false -> is_sync_error m = false ->
  untouched s (eprint m s').
Proof.
  intros Hu Hi Hs. apply (untouched_trans s s'); [done|].
  repeat split. exists [m]. split; [done|]. by apply Forall_singleton.
Qed.

Lemma untouched_read (s : state) (i : list byte) :
  untouched s {| input := i; output := output s; room := room s; diag := diag s |}.
Proof. repeat split. exists []. by rewrite app_nil_r. Qed.

Lemma quiet_bind {A B : Type} (s : state) (o : outcome A)
    (k : A -> state -> outcome B) :
  quiet s o -> (forall a s', o = Ok a s' -> quiet s' (k a s')) ->
  quiet s (bind o k).
Proof.
  intros Ho Hk. destruct o as [a s'| | |]; try done. cbn [bind].
  specialize (Hk a s' eq_refl). cbn in Ho.
  destruct (k a s'); cbn in *; try done; by eapply untouched_trans.
Qed.

Lemma read_uint_quiet (n : nat) (s : state) : quiet s (read_uint n s).
Proof.
  unfold read_uint, fread. destruct (negb _); cbn [quiet].
  - apply untouched_eprint; [apply untouched_read | done..].
  - apply untouched_read.
Qed.

Lemma read_magic_header_quiet (expected : list byte) (n : nat) (s : state) :
  quiet s (read_magic_header expected n s).
Proof.
  unfold read_magic_header, fread.
  repeat (destruct (negb _)); cbn [quiet];
    first [apply untouched_eprint; [apply untouched_read | done..]
          | apply untouched_read].
Qed.

Lemma read_meta_field_quiet (uninit : state -> nat -> byte) (s : state) :
  quiet s (read_meta_field uninit s).
Proof.
  unfold read_meta_field. apply quiet_bind; [apply read_uint_quiet|].
  intros x s' _. unfold fread.
  destruct (x >? MAX_META_FIELD_LENGTH);
    [by apply untouched_eprint; [apply untouched_refl|..]|].
  destruct (negb _); [by apply untouched_eprint; [apply untouched_read|..]|].
  destruct (c_string _); [|done].
  by apply untouched_eprint; [apply untouched_read|..].
Qed.

Lemma firmware_header_quiet (s : state) : quiet s (firmware_header s).
Proof.
  unfold firmware_header. apply quiet_bind; [apply read_uint_quiet|].
  intros x s' _.
  destruct (x <? _); [by apply untouched_eprint; [apply untouched_refl|..]|].
  destruct (negb _); [by apply untouched_eprint; [apply untouched_refl|..]|].
  apply quiet_bind; [apply read_magic_header_quiet|].
  intros _ s'' _. apply untouched_refl.
Qed.

(** A successful read moves the input on and does nothing else. *)
Lemma read_uint_returns (n : nat) (s s' : state) (x : Z) :
  read_uint n s = Ok x s' ->
  s' = {| input := drop n (input s); output := output s; room := room s;
          diag := diag s |}.
Proof.
  unfold read_uint, fread. destruct (negb _); [done|]. by intros [= _ <-].
Qed.

Lemma read_magic_header_returns (expected : list byte) (n : nat) (s s' : state) :
  read_magic_header expected n s = Ok tt s' ->
  s' = {| input := drop n (input s); output := output s; room := room s;
          diag := diag s |}.
Proof.
  unfold read_magic_header, fread. repeat (destruct (negb _); [done|]).
  by intros [= <-].
Qed.

(** The loop variables as [firmware_header] hands them to the loop. *)
Lemma firmware_header_vars (s s' : state) (v : loop_vars) :
  firmware_header s = Ok v s' ->
  4 <= fw_length v /\ fw_length v mod 4 = 0
  /\ chunks_done v = 0 /\ invert_endian v = false
  /\ s' = {| input := drop 52 (input s); output := output s; room := room s;
             diag := diag s |}.
Proof.
  unfold firmware_header.
  destruct (read_uint 4 s) as [x s1| | |] eqn:Hlen; cbn [bind]; try done.
  apply read_uint_returns in Hlen.
  change (4 + Z.of_nat (length FIRMWARE_MAGIC_HEADER)) with 52.
  change (Z.of_nat (length FIRMWARE_MAGIC_HEADER)) with 48.
  destruct (Z.ltb_spec x 52); [done|].
  destruct (Z.eqb_spec (x mod 4) 0); [|done].
  cbn [negb]. unfold READ_MAGIC_HEADER.
  destruct (read_magic_header _ _ s1) as [[] s2| | |] eqn:Hmagic; cbn [bind]; try done.
  apply read_magic_header_returns in Hmagic.
  intros [= <- <-]. cbn [fw_length chunks_done invert_endian].
  repeat split; try done; try div_lia.
  rewrite Hmagic, Hlen. cbn [input output room diag]. rewrite drop_drop. done.
Qed.

Lemma firmware_header_defined (s : state) : final (firmware_header s) <> None.
Proof.
  unfold firmware_header, READ_MAGIC_HEADER, read_magic_header, read_uint, fread.
  cbn [bind]. repeat (case_match; cbn [bind final]); done.
Qed.

(** ** SYNC detection *)

Lemma detect_sync_entry (v : loop_vars) (chunk : list byte) :
  chunks_done v = 0 -> (4 <= length chunk)%nat ->
  detect_sync v chunk =
    if decide (take 4 chunk = SYNC_INVERTED) then Some true
    else if decide (take 4 chunk = SYNC_CANONICAL) then Some (invert_endian v)
    else None.
Proof.
  intros Hcd Hlen. unfold detect_sync. rewrite Hcd. cbn [Z.eqb].
  pose proof (memcmp_zero 4 chunk SYNC_INVERTED Hlen ltac:(simpl; lia)) as Hi.
  pose proof (memcmp_zero 4 chunk SYNC_CANONICAL Hlen ltac:(simpl; lia)) as Hc.
  change (take 4 SYNC_INVERTED) with SYNC_INVERTED in Hi.
  change (take 4 SYNC_CANONICAL) with SYNC_CANONICAL in Hc.
  destruct (decide (take 4 chunk = SYNC_INVERTED)) as [Ei|Ei].
  - apply Hi in Ei. by rewrite Ei.
  - destruct (Z.eqb_spec (memcmp chunk SYNC_INVERTED 4) 0) as [E|_]; [tauto|].
    destruct (decide (take 4 chunk = SYNC_CANONICAL)) as [Ec|Ec].
    + apply Hc in Ec. by rewrite Ec.
    + destruct (Z.eqb_spec (memcmp chunk SYNC_CANONICAL 4) 0) as [E|_]; [tauto|done].
Qed.

(** Byte [i] of the corrected payload is the byte at the mirrored place of
    the same word. *)
Lemma swap_words_lookup (bs : list byte) :
  forall i : nat,
    (4 * (i / 4) + 4 <= length bs)%nat ->
    swap_words bs !! i = bs !! (4 * (i / 4) + (3 - i mod 4))%nat.
Proof.
  induction bs as [bs Hs|a b c d bs IH] using words_ind; intros i Hi.
  - lia.
  - cbn [swap_words length] in *.
    destruct (Nat.lt_ge_cases i 4) as [Hlt|Hge].
    + do 4 (destruct i as [|i]; [reflexivity|]). lia.
    + destruct (Nat.le_exists_sub 4 i Hge) as (j & -> & _).
      replace (4 * ((j + 4) / 4) + (3 - (j + 4) mod 4))%nat
        with (4 + (4 * (j / 4) + (3 - j mod 4)))%nat by div_lia.
      replace (j + 4)%nat with (4 + j)%nat in * by lia.
      cbn [lookup list_lookup Nat.add]. apply IH. div_lia.
Qed.

(** ** The firmware extractor *)

(** C2: a firmware field whose length prefix, embedded magic header and
    whole payload are on the input, and whose payload the output accepts.
    If the payload starts with AA 99 55 66, [process_firmware] returns 0
    having appended to the output the payload with the bytes of every
    4-byte word reversed (byte [i] is the input byte at the mirrored place of
    its word), so that the output starts with 66 55 99 AA.  If the payload starts
    with 66 55 99 AA, the payload is appended unchanged. *)
Theorem process_firmware_corrects_endianness
    (s : state) (len payload rest : list byte) :
  length len = 4%nat ->
  input s = len ++ FIRMWARE_MAGIC_HEADER ++ payload ++ rest ->
  big_endian len = 48 + Z.of_nat (length payload) ->
  Z.of_nat (length payload) mod 4 = 0 ->
  (length payload <= room s)%nat ->
  (take 4 payload = SYNC_INVERTED ->
     process_firmware s =
       Ok tt {| input := rest; output := output s ++ swap_words payload;
                room := (room s - length payload)%nat; diag := diag s |}
     /\ take 4 (swap_words payload) = SYNC_CANONICAL
     /\ forall i : nat, (i < length payload)%nat ->
          swap_words payload !! i = payload !! (4 * (i / 4) + (3 - i mod 4))%nat)
  /\ (take 4 payload = SYNC_CANONICAL ->
        process_firmware s =
          Ok tt {| input := rest; output := output s ++ payload;
                   room := (room s - length payload)%nat; diag := diag s |}).
Proof.
  intros Hlen Hin Hbe Hmod Hroom.
  assert (forall w, take 4 payload = w -> length w = 4%nat ->
          forall inv,
            detect_sync {| fw_length := big_endian len - 48; chunks_done := 0;
                           invert_endian := false |}
              (take (Z.to_nat (MIN sizeof_chunk (big_endian len - 48))) payload)
            = Some inv ->
            process_firmware s =
              Ok tt {| input := rest; output := output s ++ corrected inv payload;
                       room := (room s - length payload)%nat; diag := diag s |})
    as Hrun.
  { intros w Hw Hw4 inv Hsync.
    assert (4 <= length payload)%nat as H4.
    { rewrite <- Hw4, <- Hw, length_take. lia. }
    unfold process_firmware.
    rewrite (firmware_header_ok s len (payload ++ rest)) by (try done; div_lia).
    cbn [bind].
    rewrite (copy_chunks_copies _ payload rest _ _ inv);
      cbn [fw_length chunks_done input output room diag]; try done; try lia.
    all: try (replace (big_endian len - 48) with (Z.of_nat (length payload)) by lia;
              done).
    unfold chunk_rounds, sizeof_chunk. cbn [fw_length].
    rewrite Nat2Z.inj_succ, Z2Nat.id by div_lia. div_lia. }
  assert (forall w, take 4 payload = w -> length w = 4%nat ->
          take 4 (take (Z.to_nat (MIN sizeof_chunk (big_endian len - 48))) payload) = w
          /\ (4 <= length (take (Z.to_nat (MIN sizeof_chunk (big_endian len - 48)))
                             payload))%nat) as Hchunk.
  { intros w Hw Hw4.
    assert (4 <= length payload)%nat as H4.
    { rewrite <- Hw4, <- Hw, length_take. lia. }
    assert (4 <= Z.to_nat (MIN sizeof_chunk (big_endian len - 48)))%nat as Hc.
    { unfold MIN, sizeof_chunk. destruct (Z.ltb_spec 4096 (big_endian len - 48)); lia. }
    split.
    - rewrite take_take. by replace (4 `min` _)%nat with 4%nat by lia.
    - rewrite length_take. lia. }
  split.
  - intros Hsync.
    destruct (Hchunk _ Hsync eq_refl) as [Ht Hl].
    assert (4 <= length payload)%nat as H4.
    { change 4%nat with (length SYNC_INVERTED). rewrite <- Hsync, length_take. lia. }
    split; [|split].
    + apply (Hrun _ Hsync eq_refl true).
      rewrite detect_sync_entry by done. rewrite Ht. done.
    + destruct payload as [|a [|b [|c [|d p]]]]; try (simpl in H4; lia).
      cbn in Hsync. injection Hsync as -> -> -> ->. reflexivity.
    + intros i Hi. apply swap_words_lookup. div_lia.
  - intros Hsync.
    destruct (Hchunk _ Hsync eq_refl) as [Ht Hl].
    apply (Hrun _ Hsync eq_refl false).
    rewrite detect_sync_entry by done. rewrite Ht. done.
Qed.

Lemma process_firmware_corrects_endianness_witness :
  process_firmware
    (initial ([x00; x00; x00; x38] ++ FIRMWARE_MAGIC_HEADER
                ++ [xaa; x99; x55; x66; x01; x02; x03; x04] ++ [x0a]) 8)
  = Ok tt {| input := [x0a];
             output := [] ++ swap_words [xaa; x99; x55; x66; x01; x02; x03; x04];
             room := (8 - 8)%nat; diag := [] |}.
Proof.
  apply (process_firmware_corrects_endianness
           (initial ([x00; x00; x00; x38] ++ FIRMWARE_MAGIC_HEADER
                       ++ [xaa; x99; x55; x66; x01; x02; x03; x04] ++ [x0a]) 8)
           [x00; x00; x00; x38] [xaa; x99; x55; x66; x01; x02; x03; x04] [x0a]);
    reflexivity.
Defined.

(** ** Every call of the firmware extractor *)

Lemma chunk_rounds_enough (v : loop_vars) :
  0 <= fw_length v -> fw_length v <= sizeof_chunk * Z.of_nat (chunk_rounds v).
Proof.
  intros H. unfold chunk_rounds, sizeof_chunk.
  rewrite Nat2Z.inj_succ, Z2Nat.id by div_lia. div_lia.
Qed.

(** [process_firmware] returns, whatever the input.  It appends to the
    output a prefix [w] of the payload that is there, corrected in one mode,
    and all of the declared payload when it returns 0.  It never prints the
    message of [invert_u32_endianness], and prints the SYNC message only
    when it wrote nothing; when it returns 0 it printed nothing. *)
Lemma process_firmware_run (s : state) :
  exists (s' : state) (w : list byte) (ms : list msg),
    (process_firmware s = Ok tt s' /\ ms = [] \/ process_firmware s = Err s')
    /\ output s' = output s ++ w
    /\ diag s' = diag s ++ ms
    /\ Forall (fun m => is_invert_error m = false
                        /\ (is_sync_error m = true -> w = [])) ms
    /\ match firmware_header s with
       | Ok v s1 =>
           exists inv : bool,
             w `prefix_of` corrected inv (take (Z.to_nat (fw_length v)) (input s1))
             /\ (process_firmware s = Ok tt s' ->
                 w = corrected inv (take (Z.to_nat (fw_length v)) (input s1))
                 /\ length w = Z.to_nat (fw_length v))
       | _ => w = []
       end.
Proof.
  unfold process_firmware.
  pose proof (firmware_header_quiet s) as Hq.
  pose proof (firmware_header_vars s) as Hv.
  pose proof (firmware_header_defined s) as Hdef.
  destruct (firmware_header s) as [v s1|s1| |]; cbn [bind quiet] in *; try done.
  - destruct (Hv s1 v eq_refl) as (H4 & Hmod & Hcd & Hinv0 & Hs1).
    destruct (copy_chunks_run (chunk_rounds v) v s1)
      as (s' & inv & w & ms & Hres & Hout & Hdiag & Hpre & _ & Hms);
      [lia | lia | done | apply chunk_rounds_enough; lia |].
    assert (output s1 = output s /\ diag s1 = diag s) as [Ho Hd] by (by rewrite Hs1).
    exists s', w, ms. rewrite <- Ho, <- Hd.
    split; [|split; [done|split; [done|split]]].
    + destruct Hres as [(-> & _ & ->) | ->]; [by left | by right].
    + eapply Forall_impl; [exact Hms|]. intros m [Hi Hsy]. split; [done|].
      intros Hm. by destruct (Hsy Hm).
    + exists inv. split; [done|]. intros Hok.
      destruct Hres as [(_ & Hw & _) | Herr]; [|congruence].
      split; [|done].
      apply prefix_length_eq; [done|].
      rewrite corrected_length, length_take, Hw. lia.
  - destruct Hq as (Ho & Hr & ms & Hd & Hf).
    exists s1, [], ms. rewrite app_nil_r.
    split; [by right|]. repeat split; try done.
    eapply Forall_impl; [exact Hf|]. intros m [Hi Hsy]. split; [done|]. congruence.
Qed.

(** ** The chunks handed to the corrector *)

(** At the head of the loop the length left is a multiple of 4. *)
Lemma loop_head_aligned (s0 : state) (v : loop_vars) (s : state) :
  loop_head s0 v s -> 0 <= fw_length v /\ fw_length v mod 4 = 0.
Proof.
  induction 1 as [v s Hhdr|v s v' s' Hhead [IHpos IHmod] Hpos Hround].
  - apply firmware_header_vars in Hhdr as (H4 & Hmod & _). lia.
  - pose proof (copy_chunk_cases v s ltac:(lia) IHmod) as Hcases.
    rewrite Hround in Hcases.
    destruct (MIN_chunk (fw_length v) ltac:(lia) IHmod) as (Hc & Hle & _ & Hrest & _).
    inversion Hcases; subst; cbn [fw_length].
    subst c. rewrite Z2Nat.id by lia. split; [lia | done].
Qed.

(** C4: at every head of the copy loop reached in a call of
    [process_firmware] with bytes left to copy, the chunk length
    [MIN(sizeof(chunk), fw_length)] is a multiple of 4, so that
    [invert_u32_endianness] called with it returns 0 on any buffer and prints
    nothing; and a chunk shorter than the 4096-byte cap is the last one: the
    round that copies it leaves [fw_length] at 0.  Accordingly no call of
    [process_firmware] ever prints the corrector's error message. *)
Theorem chunk_lengths_word_aligned (s0 : state) (v : loop_vars) (s : state) :
  loop_head s0 v s -> fw_length v > 0 ->
  MIN sizeof_chunk (fw_length v) mod 4 = 0
  /\ (forall (chunk : list byte) (s1 : state),
        exists chunk',
          invert_u32_endianness chunk (Z.to_nat (MIN sizeof_chunk (fw_length v))) s1
          = Ok chunk' s1)
  /\ (MIN sizeof_chunk (fw_length v) < sizeof_chunk ->
      forall v' s', copy_chunk v s = Ok v' s' -> fw_length v' = 0)
  /\ (forall s', final (process_firmware s0) = Some s' ->
      exists ms, diag s' = diag s0 ++ ms
                 /\ Forall (fun m => is_invert_error m = false) ms).
Proof.
  intros Hhead Hpos.
  destruct (loop_head_aligned s0 v s Hhead) as [_ Hmod].
  destruct (MIN_chunk (fw_length v) ltac:(lia) Hmod) as (Hc & Hle & Hc4 & Hrest & Hlast).
  split; [done|]. split; [|split].
  - intros chunk s1. unfold invert_u32_endianness.
    rewrite Z2Nat.id by lia. rewrite Hc4. cbn [Z.eqb negb]. eauto.
  - intros Hshort v' s' Hround.
    pose proof (copy_chunk_cases v s ltac:(lia) Hmod) as Hcases.
    rewrite Hround in Hcases. inversion Hcases; subst; cbn [fw_length].
    subst c. rewrite Z2Nat.id by lia. by apply Hlast.
  - intros s' Hfinal.
    destruct (process_firmware_run s0) as (s'' & w & ms & Hres & _ & Hdiag & Hms & _).
    assert (s'' = s') as ->.
    { destruct Hres as [[E _]|E]; rewrite E in Hfinal; cbn in Hfinal; congruence. }
    exists ms. split; [done|].
    eapply Forall_impl; [exact Hms|]. by intros m [Hi _].
Qed.

Lemma chunk_lengths_word_aligned_witness :
  MIN sizeof_chunk 8 mod 4 = 0
  /\ (forall (chunk : list byte) (s1 : state),
        exists chunk',
          invert_u32_endianness chunk (Z.to_nat (MIN sizeof_chunk 8)) s1 = Ok chunk' s1).
Proof.
  pose (s0 := initial ([x00; x00; x00; x38] ++ FIRMWARE_MAGIC_HEADER
                         ++ [xaa; x99; x55; x66; x01; x02; x03; x04]) 8).
  pose (v := {| fw_length := 8; chunks_done := 0; invert_endian := false |}).
  pose (s := {| input := [xaa; x99; x55; x66; x01; x02; x03; x04]; output := [];
                room := 8%nat; diag := [] |}).
  destruct (chunk_lengths_word_aligned s0 v s) as (H1 & H2 & _).
  - apply head_entry. reflexivity.
  - reflexivity.
  - split; [exact H1 | exact H2].
Defined.

(** ** The field loop *)

Lemma dispatch_cases (uninit : state -> nat -> byte) (b : byte) (s : state) :
  ((b = x61 \/ b = x62 \/ b = x63 \/ b = x64)
   /\ dispatch uninit b s = read_meta_field uninit s)
  \/ (b = x65 /\ dispatch uninit b s = process_firmware s)
  \/ (~ (b = x61 \/ b = x62 \/ b = x63 \/ b = x64 \/ b = x65)
      /\ dispatch uninit b s = Err (eprint (Err_unknown_field b) s)).
Proof.
  destruct b;
    first
      [ by left; split; [tauto|]
      | by right; left
      | right; right; split; [|reflexivity];
        by intros [H|[H|[H|[H|H]]]] ].
Qed.

Lemma bind_return (o : outcome unit) : (let%ok (_, s) := o in Ok tt s) = o.
Proof. by destruct o as [[] s| | |]. Qed.

Lemma read_meta_field_input (uninit : state -> nat -> byte) (s s' : state) :
  read_meta_field uninit s = Ok tt s' -> (length (input s') <= length (input s))%nat.
Proof.
  unfold read_meta_field.
  destruct (read_uint 2 s) as [x s1| | |] eqn:Hlen; cbn [bind]; try done.
  apply read_uint_returns in Hlen. unfold fread. subst s1. cbn [input output room diag].
  repeat (case_match; try done). intros [= <-]. cbn [eprint input].
  rewrite !length_drop. lia.
Qed.

Lemma read_magic_header_defined (expected : list byte) (n : nat) (s : state) :
  final (read_magic_header expected n s) <> None.
Proof.
  unfold read_magic_header, fread. repeat (case_match; cbn [final]); done.
Qed.

Lemma process_firmware_defined (s : state) :
  final (process_firmware s) <> None.
Proof.
  destruct (process_firmware_run s) as (s' & w & ms & [[-> _]| ->] & _); done.
Qed.

(** A run of the field loop either writes nothing, or is a single call of
    [process_firmware], made when nothing has been written yet, whose result
    is the result of the loop. *)
Lemma read_fields_run (uninit : state -> nat -> byte) (fuel : nat) :
  forall s : state,
    (length (input s) < fuel)%nat ->
    quiet s (read_fields uninit fuel s)
    \/ exists sf, untouched s sf /\ read_fields uninit fuel s = process_firmware sf.
Proof.
  induction fuel as [|fuel IH]; intros s Hfuel; [lia|].
  cbn [read_fields]. unfold fread.
  destruct (input s) as [|b tl] eqn:Hin.
  { left. cbn. apply untouched_eprint; [|done..].
    rewrite <- Hin. destruct s; apply untouched_refl. }
  change (take 1 (b :: tl)) with [b]. change (drop 1 (b :: tl)) with tl.
  change (negb (Z.of_nat (length [b]) =? 1)) with false. cbv iota.
  change ([b] !!! 0%nat) with b.
  set (s1 := {| input := tl; output := output s; room := room s; diag := diag s |}).
  assert (untouched s s1) as Hs1 by apply untouched_read.
  destruct (dispatch_cases uninit b s1) as [[Hb ->]|[[-> ->]|[Hb ->]]].
  - assert (b <> x65) as Hne by (intros ->; destruct Hb as [?|[?|[?|?]]]; done).
    rewrite bool_decide_false by done. cbn [negb].
    pose proof (read_meta_field_quiet uninit s1) as Hq.
    pose proof (read_meta_field_input uninit s1) as Hlen.
    destruct (read_meta_field uninit s1) as [[] s2|s2| |]; cbn [bind quiet] in *;
      try done.
    + specialize (Hlen s2 eq_refl). subst s1. cbn [input length] in *.
      destruct (IH s2 ltac:(lia)) as [Hquiet|(sf & Hsf & ->)].
      * left. destruct (read_fields uninit fuel s2); cbn [quiet] in *; try done;
          eauto using untouched_trans.
      * right. exists sf. eauto using untouched_trans.
    + left. eauto using untouched_trans.
    + by left.
  - right. exists s1. split; [done|].
    rewrite bool_decide_true by done. cbn [negb]. apply bind_return.
  - left. cbn [bind quiet]. by apply untouched_eprint.
Qed.

Lemma process_bit_file_run (uninit : state -> nat -> byte) (s : state) :
  quiet s (process_bit_file uninit s)
  \/ exists sf, untouched s sf /\ process_bit_file uninit s = process_firmware sf.
Proof.
  unfold process_bit_file, READ_MAGIC_HEADER.
  pose proof (read_magic_header_quiet BIT_MAGIC_HEADER (length BIT_MAGIC_HEADER) s) as Hq.
  pose proof (read_magic_header_defined BIT_MAGIC_HEADER (length BIT_MAGIC_HEADER) s)
    as Hdef.
  destruct (read_magic_header _ _ s) as [[] s1|s1| |]; cbn [ignoring quiet final] in *;
    try done.
  all: destruct (read_fields_run uninit (S (length (input s1))) s1 ltac:(lia))
         as [Hquiet|(sf & Hsf & ->)];
       [ left; destruct (read_fields uninit _ s1); cbn [quiet] in *; try done;
         eauto using untouched_trans
       | right; exists sf; eauto using untouched_trans ].
Qed.

(** ** An unrecognised SYNC word *)

(** A run that prints the SYNC message has written nothing, and returns -1. *)
Lemma sync_error_run (uninit : state -> nat -> byte) (s s' : state) :
  Forall (fun m => is_sync_error m = false) (diag s) ->
  final (process_bit_file uninit s) = Some s' ->
  Exists (fun m => is_sync_error m = true) (diag s') ->
  output s' = output s /\ process_bit_file uninit s = Err s'.
Proof.
  intros Hclean Hfinal Hsync.
  destruct (process_bit_file_run uninit s) as [Hq|(sf & Hsf & Hrun)].
  - exfalso.
    assert (untouched s s') as (_ & _ & ms & Hd & Hms).
    { destruct (process_bit_file uninit s); cbn in *; congruence. }
    rewrite Hd in Hsync. apply Exists_app in Hsync as [Hsync|Hsync].
    + apply Exists_exists in Hsync as (m & Hin & Hm).
      rewrite Forall_forall in Hclean. specialize (Hclean m Hin). congruence.
    + apply Exists_exists in Hsync as (m & Hin & Hm).
      rewrite Forall_forall in Hms. destruct (Hms m Hin). congruence.
  - rewrite Hrun in *.
    destruct Hsf as (Ho & _ & ms0 & Hd0 & Hms0).
    destruct (process_firmware_run sf) as (s'' & w & ms & Hres & Hout & Hdiag & Hms & _).
    assert (s'' = s') as ->.
    { destruct Hres as [[E _]|E]; rewrite E in Hfinal; cbn in Hfinal; congruence. }
    assert (Exists (fun m => is_sync_error m = true) ms) as Hin_ms.
    { rewrite Hdiag, Hd0 in Hsync.
      apply Exists_app in Hsync as [Hsync|Hsync]; [|done].
      exfalso. apply Exists_app in Hsync as [Hsync|Hsync];
        apply Exists_exists in Hsync as (m & Hin & Hm).
      - rewrite Forall_forall in Hclean. specialize (Hclean m Hin). congruence.
      - rewrite Forall_forall in Hms0. destruct (Hms0 m Hin). congruence. }
    apply Exists_exists in Hin_ms as (m & Hin & Hm).
    rewrite Forall_forall in Hms. destruct (Hms m Hin) as [_ Hw].
    rewrite (Hw Hm), app_nil_r in Hout. split; [congruence|].
    destruct Hres as [[_ ->]|E]; [by apply elem_of_nil in Hin | done].
Qed.

(** C8: a firmware field of valid length, with its embedded magic header,
    whose first four payload bytes are neither 66 55 99 AA nor AA 99 55 66.
    [process_firmware] returns -1 and leaves the output as it was; when the
    first chunk could be read in full, the message it prints is the one for
    an invalid SYNC word, with these four bytes.  And in a whole run: once
    that message is printed, the output of the run is empty and [main]
    returns -1. *)
Theorem process_firmware_rejects_sync
    (s : state) (len : list byte) (w0 w1 w2 w3 : byte) (rest : list byte) :
  length len = 4%nat ->
  input s = len ++ FIRMWARE_MAGIC_HEADER ++ w0 :: w1 :: w2 :: w3 :: rest ->
  52 <= big_endian len -> big_endian len mod 4 = 0 ->
  [w0; w1; w2; w3] <> SYNC_CANONICAL -> [w0; w1; w2; w3] <> SYNC_INVERTED ->
  (exists s' : state,
     process_firmware s = Err s'
     /\ output s' = output s /\ room s' = room s
     /\ (MIN sizeof_chunk (big_endian len - 48) <= 4 + Z.of_nat (length rest) ->
         diag s' = diag s ++ [Err_sync w0 w1 w2 w3]))
  /\ (forall (uninit : state -> nat -> byte) (stdin : list byte) (capacity : nat)
             (s' : state),
        final (main uninit (initial stdin capacity)) = Some s' ->
        Exists (fun m => is_sync_error m = true) (diag s') ->
        output s' = [] /\ return_code (main uninit (initial stdin capacity)) = Some (-1)).
Proof.
  intros Hlen Hin Hbig Hmod Hcanon Hinv. split.
  - unfold process_firmware.
    rewrite (firmware_header_ok s len (w0 :: w1 :: w2 :: w3 :: rest)) by done.
    cbn [bind]. unfold chunk_rounds. cbn [fw_length].
    set (v := {| fw_length := big_endian len - 48; chunks_done := 0;
                 invert_endian := false |}).
    set (s1 := {| input := w0 :: w1 :: w2 :: w3 :: rest; output := output s;
                  room := room s; diag := diag s |}).
    assert (0 < fw_length v) as Hpos by (cbn; lia).
    assert (fw_length v mod 4 = 0) as Hmod' by (cbn; div_lia).
    rewrite copy_chunks_round by done.
    destruct (MIN_chunk (fw_length v) Hpos Hmod') as (Hc & Hle & _).
    assert (exists k, Z.to_nat (MIN sizeof_chunk (fw_length v)) = S (S (S (S k))))
      as [k Hk].
    { exists (Z.to_nat (MIN sizeof_chunk (fw_length v)) - 4)%nat.
      unfold MIN, sizeof_chunk in *. cbn [fw_length v] in *.
      destruct (Z.ltb_spec 4096 (big_endian len - 48)); lia. }
    assert (forall inv, detect_sync v (take (Z.to_nat (MIN sizeof_chunk (fw_length v)))
                                         (input s1)) <> Some inv) as Hdetect.
    { intros inv. rewrite Hk. cbn [s1 input take].
      rewrite detect_sync_entry by (cbn; lia). cbn [take]. rewrite !take_0.
      destruct (decide ([w0; w1; w2; w3] = SYNC_INVERTED)); [done|].
      destruct (decide ([w0; w1; w2; w3] = SYNC_CANONICAL)); done. }
    destruct (copy_chunk_cases v s1 Hpos Hmod') as [c Hshort|c chunk Hfull Hbad
      |inv c chunk Hfull Hsync _|inv c chunk Hfull Hsync _].
    + eexists. cbn [bind]. split; [done|]. cbn. repeat split; try done.
      intros Havail. exfalso. apply Hshort. rewrite length_take. unfold c.
      cbn [s1 input length]. cbn [fw_length v] in *. lia.
    + eexists. cbn [bind]. split; [done|]. cbn [eprint fread snd output room diag s1].
      repeat split; try done. intros _. do 2 f_equal.
      unfold chunk, c. rewrite Hk. reflexivity.
    + by destruct (Hdetect inv).
    + by destruct (Hdetect inv).
  - intros uninit stdin capacity s' Hfinal Hsync. unfold main in *.
    destruct (sync_error_run uninit (initial stdin capacity) s') as [Hout Herr];
      try done.
    by rewrite Herr.
Qed.

Lemma process_firmware_rejects_sync_witness :
  exists s' : state,
    process_firmware
      (initial ([x00; x00; x00; x34] ++ FIRMWARE_MAGIC_HEADER ++ [x00; x00; x00; x00]) 4)
    = Err s'
    /\ output s' = [] /\ room s' = 4%nat
    /\ (MIN sizeof_chunk (big_endian [x00; x00; x00; x34] - 48) <= 4 + 0 ->
        diag s' = [] ++ [Err_sync x00 x00 x00 x00]).
Proof.
  apply (process_firmware_rejects_sync
           (initial ([x00; x00; x00; x34] ++ FIRMWARE_MAGIC_HEADER
                       ++ [x00; x00; x00; x00]) 4)
           [x00; x00; x00; x34] x00 x00 x00 x00 []);
    first [reflexivity | discriminate].
Defined.

(** ** The metadata reader *)

Lemma c_string_zero (pre post : list byte) :
  x00 ∉ pre -> c_string (pre ++ x00 :: post) = Some pre.
Proof.
  induction pre as [|b pre IH]; intros Hpre; [done|].
  apply not_elem_of_cons in Hpre as [Hb Hpre].
  cbn [c_string app]. destruct (decide (b = x00)); [done|].
  by rewrite IH.
Qed.

(** C7: when the 16-bit length that opens a metadata field is above 256,
    [read_meta_field] returns -1 with the message for an oversized field;
    the input is left right after the two length bytes, so no byte of the
    field body was read. *)
Theorem read_meta_field_rejects_oversize
    (uninit : state -> nat -> byte) (s : state) (b0 b1 : byte) (rest : list byte) :
  input s = b0 :: b1 :: rest ->
  big_endian [b0; b1] > MAX_META_FIELD_LENGTH ->
  read_meta_field uninit s =
    Err {| input := rest; output := output s; room := room s;
           diag := diag s ++ [Err_field_too_large] |}.
Proof.
  intros Hin Hbig. unfold read_meta_field.
  rewrite (read_uint_value 2 [b0; b1] rest) by (try done; lia). cbn [bind].
  destruct (Z.gtb_spec (big_endian [b0; b1]) MAX_META_FIELD_LENGTH); [done | lia].
Qed.

Lemma read_meta_field_rejects_oversize_witness :
  read_meta_field (fun _ _ => x00) (initial ([x01; x2c] ++ repeat x41 300) 0) =
    Err {| input := repeat x41 300; output := []; room := 0%nat;
           diag := [] ++ [Err_field_too_large] |}.
Proof.
  apply (read_meta_field_rejects_oversize (fun _ _ => x00)
           (initial ([x01; x2c] ++ repeat x41 300) 0) x01 x2c (repeat x41 300)).
  - reflexivity.
  - reflexivity.
Defined.

(** C6, as the code has it: a metadata field whose length is at most 256,
    whose body is on the input and holds a zero byte.  [read_meta_field]
    returns 0 having consumed the length and the whole body, and appends
    one line to [stderr]: "* ", the body bytes before the first zero byte,
    and a newline.
    The zero byte and what follows it in the body are not printed. *)
Theorem read_meta_field_prints_c_string
    (uninit : state -> nat -> byte) (s : state) (b0 b1 : byte)
    (pre post rest : list byte) :
  input s = b0 :: b1 :: (pre ++ x00 :: post) ++ rest ->
  big_endian [b0; b1] = Z.of_nat (length (pre ++ x00 :: post)) ->
  big_endian [b0; b1] <= MAX_META_FIELD_LENGTH ->
  x00 ∉ pre ->
  read_meta_field uninit s =
    Ok tt {| input := rest; output := output s; room := room s;
             diag := diag s ++ [Meta_line pre] |}
  /\ stderr_bytes {| input := rest; output := output s; room := room s;
                     diag := diag s ++ [Meta_line pre] |}
     = stderr_bytes s ++ [x2a; x20] ++ pre ++ [x0a].
Proof.
  intros Hin Hlen Hmax Hpre. split.
  2: { unfold stderr_bytes. cbn [diag].
       rewrite map_app, concat_app. cbn. by rewrite app_nil_r. }
  unfold read_meta_field.
  rewrite (read_uint_value 2 [b0; b1] ((pre ++ x00 :: post) ++ rest))
    by (try done; lia).
  cbn [bind].
  destruct (Z.gtb_spec (big_endian [b0; b1]) MAX_META_FIELD_LENGTH); [lia|].
  unfold fread. cbn [input output room diag].
  rewrite Hlen, Nat2Z.id, take_app_length, drop_app_length, Z.eqb_refl.
  cbn [negb]. rewrite <- app_assoc. cbn [app].
  by rewrite c_string_zero.
Qed.

Lemma read_meta_field_prints_c_string_witness :
  read_meta_field (fun _ _ => xff)
    (initial ([x00; x06] ++ lit "hello" ++ [x00] ++ [x65]) 0) =
    Ok tt {| input := [x65]; output := []; room := 0%nat;
             diag := [] ++ [Meta_line (lit "hello")] |}
  /\ stderr_bytes {| input := [x65]; output := []; room := 0%nat;
                     diag := [] ++ [Meta_line (lit "hello")] |}
     = stderr_bytes (initial ([x00; x06] ++ lit "hello" ++ [x00] ++ [x65]) 0)
         ++ [x2a; x20] ++ lit "hello" ++ [x0a].
Proof.
  apply (read_meta_field_prints_c_string (fun _ _ => xff)
           (initial ([x00; x06] ++ lit "hello" ++ [x00] ++ [x65]) 0)
           x00 x06 (lit "hello") [] [x65]).
  - reflexivity.
  - reflexivity.
  - discriminate.
  - vm_compute. intros H. repeat (apply elem_of_cons in H as [H|H]; [discriminate|]).
    by apply elem_of_nil in H.
Defined.

(** C6 as stated fails.  The body 61 00 62 is within the ceiling and fully
    there, yet the line printed is "* a": the zero byte and the 62 after it
    are not passed through, whatever the array held before.  And with the
    body "hello" the line is not made of the body bytes alone: the array is
    printed up to the first zero byte it happens to hold ("hello!" below),
    or past its end when it holds none. *)
Lemma read_meta_field_not_verbatim :
  [x61; x00; x62] <> [x61]
  /\ (forall uninit : state -> nat -> byte,
        read_meta_field uninit (initial [x00; x03; x61; x00; x62] 0) =
          Ok tt {| input := []; output := []; room := 0%nat;
                   diag := [Meta_line [x61]] |})
  /\ read_meta_field (fun _ i => if decide (i = 5%nat) then x21 else x00)
       (initial ([x00; x05] ++ lit "hello") 0) =
       Ok tt {| input := []; output := []; room := 0%nat;
                diag := [Meta_line (lit "hello!")] |}
  /\ read_meta_field (fun _ _ => x21) (initial ([x00; x05] ++ lit "hello") 0) = Undefined.
Proof.
  split; [discriminate|]. split; [|split].
  - intros uninit. vm_compute. reflexivity.
  - vm_compute. reflexivity.
  - vm_compute. reflexivity.
Qed.

(** ** Where the output comes from *)

Lemma quiet_final {A : Type} (s s' : state) (o : outcome A) :
  quiet s o -> final o = Some s' -> output s' = output s /\ room s' = room s.
Proof.
  destruct o; cbn; try done; intros (Ho & Hr & _) [= <-]; done.
Qed.

(** C10: the validation of a magic header and the reading of a metadata
    field leave the output file as it was.  A run of [process_bit_file] always comes
    to an end; its output is the one it started with, or else the run is one
    call of [process_firmware] made with that output still untouched, and what
    is appended is a prefix of the payload bytes that were there to read,
    all corrected or all unchanged: the whole declared payload when the run
    returns 0, the part written before the error otherwise. *)
Theorem output_only_from_firmware (uninit : state -> nat -> byte) (s : state) :
  (forall (expected : list byte) (n : nat) (s' : state),
     final (read_magic_header expected n s) = Some s' ->
     output s' = output s /\ room s' = room s)
  /\ (forall s' : state,
        final (read_meta_field uninit s) = Some s' ->
        output s' = output s /\ room s' = room s)
  /\ process_bit_file uninit s <> OutOfFuel
  /\ (forall s' : state,
        final (process_bit_file uninit s) = Some s' ->
        output s' = output s
        \/ exists (sf s1 : state) (v : loop_vars) (inv : bool) (w : list byte),
             output sf = output s
             /\ process_bit_file uninit s = process_firmware sf
             /\ firmware_header sf = Ok v s1
             /\ output s' = output s ++ w
             /\ w `prefix_of` corrected inv (take (Z.to_nat (fw_length v)) (input s1))
             /\ (return_code (process_bit_file uninit s) = Some 0 ->
                 w = corrected inv (take (Z.to_nat (fw_length v)) (input s1))
                 /\ length w = Z.to_nat (fw_length v))).
Proof.
  split; [|split; [|split]].
  - intros expected n s'. apply quiet_final, read_magic_header_quiet.
  - intros s'. apply quiet_final, read_meta_field_quiet.
  - destruct (process_bit_file_run uninit s) as [Hq|(sf & _ & ->)].
    + intros E. by rewrite E in Hq.
    + intros E. by apply (process_firmware_defined sf); rewrite E.
  - intros s' Hfinal.
    destruct (process_bit_file_run uninit s) as [Hq|(sf & (Ho & _) & Hrun)].
    { left. by apply (quiet_final s s' _ Hq). }
    rewrite Hrun in *.
    destruct (process_firmware_run sf) as (s'' & w & ms & Hres & Hout & _ & _ & Hw).
    assert (s'' = s') as ->.
    { destruct Hres as [[E _]|E]; rewrite E in Hfinal; cbn in Hfinal; congruence. }
    destruct (firmware_header sf) as [v s1|s1| |] eqn:Hhdr.
    2-4: left; subst w; rewrite app_nil_r in Hout; congruence.
    destruct Hw as (inv & Hpre & Hall).
    right. exists sf, s1, v, inv, w.
    split; [done|]. split; [done|]. split; [done|]. split; [congruence|].
    split; [done|]. intros Hrc.
    destruct Hres as [[E _]|E]; [by apply Hall | by rewrite E in Hrc].
Qed.

(** ** The container magic header *)

(** C1 does not hold of the code: [process_bit_file] calls
    [READ_MAGIC_HEADER] and drops its result.  On an input that opens with
    thirteen bytes FF, the mismatch is reported, and the run goes on to read
    the tag 65 and the firmware field after it, writes the payload and
    returns 0. *)
Theorem bad_container_magic_not_fatal (uninit : state -> nat -> byte) :
  take 13 (repeat xff 13 ++ [x65] ++ [x00; x00; x00; x34] ++ FIRMWARE_MAGIC_HEADER
             ++ SYNC_CANONICAL) <> BIT_MAGIC_HEADER
  /\ main uninit
       (initial (repeat xff 13 ++ [x65] ++ [x00; x00; x00; x34]
                   ++ FIRMWARE_MAGIC_HEADER ++ SYNC_CANONICAL) 4)
     = Ok tt {| input := []; output := SYNC_CANONICAL; room := 0%nat;
                diag := [Err_magic_invalid] |}
  /\ exit_status
       (main uninit
          (initial (repeat xff 13 ++ [x65] ++ [x00; x00; x00; x34]
                      ++ FIRMWARE_MAGIC_HEADER ++ SYNC_CANONICAL) 4))
     = Some 0.
Proof.
  split; [discriminate|]. split; vm_compute; reflexivity.
Qed.

(** ** A whole conversion *)

(** The container magic header, one metadata field ("hello", zero-terminated)
    and a firmware field of three words stored in inverted order: the run
    returns 0, prints the one metadata line and writes the twelve payload
    bytes with every word put back in canonical order. *)
Example end_to_end (uninit : state -> nat -> byte) :
  main uninit
    (initial (BIT_MAGIC_HEADER
                ++ [x61; x00; x06] ++ lit "hello" ++ [x00]
                ++ [x65; x00; x00; x00; x3c] ++ FIRMWARE_MAGIC_HEADER
                ++ [xaa; x99; x55; x66; x04; x03; x02; x01; x08; x07; x06; x05]) 12)
  = Ok tt {| input := [];
             output := [x66; x55; x99; xaa; x01; x02; x03; x04; x05; x06; x07; x08];
             room := 0%nat;
             diag := [Meta_line (lit "hello")] |}.
Proof. vm_compute. reflexivity. Qed.

(** * Further properties of the code *)

(** ** Magic headers are matched exactly *)

(** X1: [READ_MAGIC_HEADER] returns 0 exactly when the next bytes of the input
    are the expected sequence, all of it.  Whatever it returns, it has taken
    these bytes (or what was left of the input) and written nothing. *)
Theorem READ_MAGIC_HEADER_exact (expected : list byte) (s : state) :
  (return_code (READ_MAGIC_HEADER expected s) = Some 0
   <-> take (length expected) (input s) = expected)
  /\ exists s' : state,
       final (READ_MAGIC_HEADER expected s) = Some s'
       /\ input s' = drop (length expected) (input s)
       /\ output s' = output s /\ room s' = room s.
Proof.
  unfold READ_MAGIC_HEADER, read_magic_header, fread.
  set (n := length expected). set (buf := take n (input s)).
  destruct (Z.eqb_spec (Z.of_nat (length buf)) (Z.of_nat n)) as [Hlen|Hlen];
    cbn [negb].
  - pose proof (memcmp_zero n buf expected ltac:(lia) ltac:(lia)) as Hcmp.
    assert (take n buf = buf) as Hbuf by (apply take_ge; lia).
    assert (take n expected = expected) as Hexp by (apply take_ge; lia).
    rewrite Hbuf, Hexp in Hcmp.
    destruct (Z.eqb_spec (memcmp buf expected n) 0) as [Hz|Hz]; cbn [negb].
    + split; [split; [by intros _; apply Hcmp | done]|]. eauto.
    + split; [split; [done | by intros E; apply Hcmp in E]|]. eauto.
  - split; [|eauto]. split; [done|].
    intros E. exfalso. apply Hlen. by rewrite E.
Qed.

(** X2: the header embedded in the firmware field is enforced: when the 48
    bytes after a valid length are not [FIRMWARE_MAGIC_HEADER],
    [process_firmware] returns -1 having read them and nothing more, and
    writes nothing. *)
Theorem process_firmware_rejects_magic
    (s : state) (len magic rest : list byte) :
  length len = 4%nat -> length magic = 48%nat ->
  input s = len ++ magic ++ rest ->
  52 <= big_endian len -> big_endian len mod 4 = 0 ->
  magic <> FIRMWARE_MAGIC_HEADER ->
  process_firmware s =
    Err {| input := rest; output := output s; room := room s;
           diag := diag s ++ [Err_magic_invalid] |}.
Proof.
  intros Hlen Hmagic Hin Hbig Hmod Hne.
  unfold process_firmware, firmware_header.
  rewrite (read_uint_value 4 len (magic ++ rest)) by (try done; lia).
  cbn [bind].
  change (4 + Z.of_nat (length FIRMWARE_MAGIC_HEADER)) with 52.
  destruct (Z.ltb_spec (big_endian len) 52); [lia|].
  rewrite Hmod. cbn [Z.eqb negb].
  unfold READ_MAGIC_HEADER, read_magic_header, fread. cbn [input output room diag].
  change (length FIRMWARE_MAGIC_HEADER) with 48%nat.
  rewrite <- Hmagic, take_app_length, drop_app_length, Z.eqb_refl. cbn [negb].
  destruct (Z.eqb_spec (memcmp magic FIRMWARE_MAGIC_HEADER (length magic)) 0)
    as [Hz|Hz]; cbn [negb bind]; [|done].
  exfalso. apply Hne.
  apply memcmp_zero in Hz; [|lia|rewrite Hmagic; simpl; lia].
  rewrite take_ge in Hz by lia. rewrite Hz, Hmagic. reflexivity.
Qed.

Lemma process_firmware_rejects_magic_witness :
  process_firmware
    (initial ([x00; x00; x00; x34] ++ repeat x00 48 ++ [x66; x55; x99; xaa]) 4) =
    Err {| input := [x66; x55; x99; xaa]; output := []; room := 4%nat;
           diag := [] ++ [Err_magic_invalid] |}.
Proof.
  apply (process_firmware_rejects_magic
           (initial ([x00; x00; x00; x34] ++ repeat x00 48 ++ [x66; x55; x99; xaa]) 4)
           [x00; x00; x00; x34] (repeat x00 48) [x66; x55; x99; xaa]);
    first [reflexivity | discriminate].
Defined.

(** ** The integer reader on any byte count *)

Lemma shift_in_mod (acc : Z) (b : byte) :
  shift_in acc b = (acc * 256) mod 2 ^ 32 + byte_val b.
Proof.
  unfold shift_in. pose proof (byte_val_range b).
  rewrite Z.shiftl_mul_pow2 by lia.
  change (2 ^ 8) with 256. change (2 ^ 32) with (2 ^ 24 * 256).
  rewrite Z.mul_mod_distr_r by lia.
  rewrite <- (lor_low_byte (acc mod 2 ^ 24)) by lia.
  f_equal. rewrite Z.shiftl_mul_pow2 by lia. reflexivity.
Qed.

Lemma shift_in_range (acc : Z) (b : byte) : 0 <= shift_in acc b < 2 ^ 32.
Proof.
  rewrite shift_in_mod. pose proof (byte_val_range b).
  change (2 ^ 32) with (2 ^ 24 * 256). rewrite Z.mul_mod_distr_r by lia.
  pose proof (Z.mod_pos_bound acc (2 ^ 24) ltac:(lia)). lia.
Qed.

Lemma fold_shift_in_mod (bs : list byte) :
  forall acc : Z,
    fold_left shift_in bs acc mod 2 ^ 32
    = (acc * 256 ^ Z.of_nat (length bs) + big_endian bs) mod 2 ^ 32.
Proof.
  induction bs as [|b bs IH]; intros acc.
  - cbn. f_equal. lia.
  - cbn [fold_left big_endian length].
    rewrite IH, shift_in_mod, Nat2Z.inj_succ, Z.pow_succ_r by lia.
    rewrite (Z.mod_eq (acc * 256)) by lia.
    replace ((acc * 256 - 2 ^ 32 * (acc * 256 / 2 ^ 32) + byte_val b)
               * 256 ^ Z.of_nat (length bs) + big_endian bs)
      with (acc * (256 * 256 ^ Z.of_nat (length bs))
              + (byte_val b * 256 ^ Z.of_nat (length bs) + big_endian bs)
              + (- (acc * 256 / 2 ^ 32) * 256 ^ Z.of_nat (length bs)) * 2 ^ 32)
      by ring.
    apply Z_mod_plus_full.
Qed.

Lemma fold_shift_in_range (bs : list byte) (acc : Z) :
  0 <= acc < 2 ^ 32 -> 0 <= fold_left shift_in bs acc < 2 ^ 32.
Proof.
  revert acc. induction bs as [|b bs IH]; intros acc Hacc; [done|].
  cbn [fold_left]. apply IH, shift_in_range.
Qed.

(** X3: whatever the number of bytes asked for, [read_uint] yields the
    big-endian value of the bytes read reduced modulo [2 ^ 32]: with more
    than four bytes the leading ones are shifted out of the [uint32_t]. *)
Theorem read_uint_wraps (n : nat) (bs rest : list byte) (s : state) :
  length bs = n -> input s = bs ++ rest ->
  read_uint n s =
    Ok (big_endian bs mod 2 ^ 32)
       {| input := rest; output := output s; room := room s; diag := diag s |}
  /\ big_endian bs mod 2 ^ 32 = big_endian (drop (n - 4) bs).
Proof.
  intros Hlen Hin. split.
  - rewrite (read_uint_ok n bs rest) by done. f_equal.
    rewrite <- (Z.mod_small (fold_left shift_in bs 0) (2 ^ 32))
      by (apply fold_shift_in_range; lia).
    rewrite fold_shift_in_mod. f_equal.
  - rewrite <- (take_drop (n - 4) bs) at 1.
    assert (forall xs ys : list byte,
              big_endian (xs ++ ys)
              = big_endian xs * 256 ^ Z.of_nat (length ys) + big_endian ys) as Happ.
    { induction xs as [|x xs IH]; intros ys; [cbn; lia|].
      cbn [app big_endian]. rewrite IH, length_app, Nat2Z.inj_add, Z.pow_add_r by lia.
      ring. }
    rewrite Happ.
    pose proof (big_endian_range (drop (n - 4) bs)) as Hr.
    destruct (Nat.le_gt_cases n 4) as [Hle|Hgt].
    + replace (n - 4)%nat with 0%nat by lia. rewrite take_0, drop_0.
      cbn [big_endian]. rewrite Z.mod_small; [lia|].
      pose proof (big_endian_range bs) as Hbs.
      assert (256 ^ Z.of_nat (length bs) <= 256 ^ 4) by (apply Z.pow_le_mono_r; lia).
      change (256 ^ 4) with (2 ^ 32) in *. lia.
    + assert (length (drop (n - 4) bs) = 4%nat) as H4 by (rewrite length_drop; lia).
      rewrite H4 in *. change (256 ^ Z.of_nat 4) with (2 ^ 32) in *.
      rewrite Z.add_comm, Z_mod_plus_full. by apply Z.mod_small.
Qed.

Lemma read_uint_wraps_witness :
  read_uint 5 (initial [x01; x00; x00; x00; x02] 0) =
    Ok (big_endian [x01; x00; x00; x00; x02] mod 2 ^ 32)
       {| input := []; output := []; room := 0%nat; diag := [] |}
  /\ big_endian [x01; x00; x00; x00; x02] mod 2 ^ 32
     = big_endian (drop (5 - 4) [x01; x00; x00; x00; x02]).
Proof.
  apply (read_uint_wraps 5 [x01; x00; x00; x00; x02] [] (initial [x01; x00; x00; x00; x02] 0));
    reflexivity.
Defined.

(** ** What the endianness corrector does to a buffer *)

Lemma swap_words_perm (bs : list byte) : swap_words bs ≡ₚ bs.
Proof.
  induction bs as [bs Hs|a b c d bs IH] using words_ind.
  - by rewrite swap_words_short.
  - cbn [swap_words]. rewrite IH.
    change (d :: c :: b :: a :: bs) with (reverse [a; b; c; d] ++ bs).
    change (a :: b :: c :: d :: bs) with ([a; b; c; d] ++ bs).
    by rewrite reverse_Permutation.
Qed.

(** X4: for [n] a multiple of 4 within the buffer, [invert_u32_endianness]
    returns 0 and prints nothing; byte [i] below [n] of the new buffer is the
    old byte at the mirrored place of the same 4-byte word, the bytes from
    [n] on are as they were, and the buffer holds the same bytes as before,
    as many of each. *)
Theorem invert_u32_endianness_mirrors (buf : list byte) (n : nat) (s : state) :
  Z.of_nat n mod 4 = 0 -> (n <= length buf)%nat ->
  exists buf' : list byte,
    invert_u32_endianness buf n s = Ok buf' s
    /\ (forall i : nat, (i < n)%nat ->
          buf' !! i = buf !! (4 * (i / 4) + (3 - i mod 4))%nat)
    /\ drop n buf' = drop n buf
    /\ length buf' = length buf
    /\ buf' ≡ₚ buf.
Proof.
  intros Hmod Hlen. eexists. split; [by apply invert_u32_endianness_spec|].
  assert (length (swap_words (take n buf)) = n) as Hl.
  { rewrite swap_words_length, length_take. lia. }
  split; [|split; [|split]].
  - intros i Hi. rewrite lookup_app_l by lia.
    rewrite swap_words_lookup by (rewrite length_take; div_lia).
    apply lookup_take_lt. div_lia.
  - by rewrite drop_app_length'.
  - rewrite length_app, Hl, length_drop. lia.
  - rewrite swap_words_perm. by rewrite take_drop.
Qed.

Lemma invert_u32_endianness_mirrors_witness :
  exists buf' : list byte,
    invert_u32_endianness [x01; x02; x03; x04; x05] 4 (initial [] 0)
    = Ok buf' (initial [] 0)
    /\ (forall i : nat, (i < 4)%nat ->
          buf' !! i = [x01; x02; x03; x04; x05] !! (4 * (i / 4) + (3 - i mod 4))%nat)
    /\ drop 4 buf' = drop 4 [x01; x02; x03; x04; x05]
    /\ length buf' = length [x01; x02; x03; x04; x05]
    /\ buf' ≡ₚ [x01; x02; x03; x04; x05].
Proof.
  apply (invert_u32_endianness_mirrors [x01; x02; x03; x04; x05] 4 (initial [] 0)).
  - reflexivity.
  - simpl. lia.
Defined.

(** ** Metadata fields that are cut short or not terminated *)

(** X5: A metadata field that announces more bytes than the input still holds:
    [read_meta_field] returns -1 with the count it could read, has taken
    all that was left of the input, and writes nothing. *)
Theorem read_meta_field_short_body
    (uninit : state -> nat -> byte) (s : state) (b0 b1 : byte) (body : list byte) :
  input s = b0 :: b1 :: body ->
  big_endian [b0; b1] <= MAX_META_FIELD_LENGTH ->
  Z.of_nat (length body) < big_endian [b0; b1] ->
  read_meta_field uninit s =
    Err {| input := []; output := output s; room := room s;
           diag := diag s ++ [Err_field_short (Z.of_nat (length body))] |}.
Proof.
  intros Hin Hmax Hshort. unfold read_meta_field.
  rewrite (read_uint_value 2 [b0; b1] body) by (try done; lia). cbn [bind].
  destruct (Z.gtb_spec (big_endian [b0; b1]) MAX_META_FIELD_LENGTH); [lia|].
  unfold fread. cbn [input output room diag].
  rewrite take_ge, drop_ge by lia.
  destruct (Z.eqb_spec (Z.of_nat (length body)) (big_endian [b0; b1])); [lia|].
  reflexivity.
Qed.

Lemma read_meta_field_short_body_witness :
  read_meta_field (fun _ _ => x00) (initial [x00; x05; x68; x69] 0) =
    Err {| input := []; output := []; room := 0%nat;
           diag := [] ++ [Err_field_short (Z.of_nat (length [x68; x69]))] |}.
Proof.
  apply (read_meta_field_short_body (fun _ _ => x00)
           (initial [x00; x05; x68; x69] 0) x00 x05 [x68; x69]).
  - reflexivity.
  - discriminate.
  - reflexivity.
Defined.





(** ** Runs that stop at a tag *)

(** X7: the container header is compared but the result is not looked at: a run
    on an input that opens with thirteen wrong bytes is the run on the same
    input with the right header, after one more line on [stderr]. *)
Theorem container_header_only_reported
    (uninit : state -> nat -> byte) (hdr rest out : list byte) (r : nat)
    (d : list msg) :
  length hdr = 13%nat -> hdr <> BIT_MAGIC_HEADER ->
  process_bit_file uninit
    {| input := hdr ++ rest; output := out; room := r; diag := d |}
  = process_bit_file uninit
      {| input := BIT_MAGIC_HEADER ++ rest; output := out; room := r;
         diag := d ++ [Err_magic_invalid] |}.
Proof.
  intros Hlen Hne. unfold process_bit_file.
  rewrite (READ_MAGIC_HEADER_ok BIT_MAGIC_HEADER rest
             {| input := BIT_MAGIC_HEADER ++ rest; output := out; room := r;
                diag := d ++ [Err_magic_invalid] |}) by done.
  unfold READ_MAGIC_HEADER, read_magic_header, fread. cbn [input output room diag].
  change (length BIT_MAGIC_HEADER) with 13%nat.
  rewrite <- Hlen, take_app_length, drop_app_length, Z.eqb_refl. cbn [negb].
  destruct (Z.eqb_spec (memcmp hdr BIT_MAGIC_HEADER (length hdr)) 0) as [Hz|Hz];
    cbn [negb ignoring]; [|done].
  exfalso. apply Hne.
  apply memcmp_zero in Hz; [|lia|rewrite Hlen; simpl; lia].
  rewrite take_ge in Hz by lia. rewrite Hz, Hlen. reflexivity.
Qed.

Lemma container_header_only_reported_witness :
  process_bit_file (fun _ _ => x00)
    {| input := repeat x00 13 ++ [x66]; output := []; room := 0%nat; diag := [] |}
  = process_bit_file (fun _ _ => x00)
      {| input := BIT_MAGIC_HEADER ++ [x66]; output := []; room := 0%nat;
         diag := [] ++ [Err_magic_invalid] |}.
Proof.
  apply (container_header_only_reported (fun _ _ => x00) (repeat x00 13) [x66] [] 0 []).
  - reflexivity.
  - discriminate.
Defined.

(** X8: A tag that is none of 61, 62, 63, 64, 65 ends the run: after a matching
    container header, [process_bit_file] returns -1 with the tag reported,
    and the input is left right after the tag. *)
Theorem unknown_tag_fatal
    (uninit : state -> nat -> byte) (s : state) (b : byte) (rest : list byte) :
  input s = BIT_MAGIC_HEADER ++ b :: rest ->
  ~ is_meta_tag b -> b <> x65 ->
  process_bit_file uninit s =
    Err {| input := rest; output := output s; room := room s;
           diag := diag s ++ [Err_unknown_field b] |}.
Proof.
  intros Hin Hmeta Hfw. unfold process_bit_file.
  rewrite (READ_MAGIC_HEADER_ok BIT_MAGIC_HEADER (b :: rest)) by done.
  cbn [ignoring input read_fields]. unfold fread. cbn [input output room diag].
  change (take 1 (b :: rest)) with [b]. change (drop 1 (b :: rest)) with rest.
  change (negb (Z.of_nat (length [b]) =? 1)) with false. cbv iota.
  change ([b] !!! 0%nat) with b.
  destruct (dispatch_cases uninit b
              {| input := rest; output := output s; room := room s; diag := diag s |})
    as [[Hb _]|[[Hb _]|[_ ->]]]; [by destruct Hmeta | done | done].
Qed.

Lemma unknown_tag_fatal_witness :
  process_bit_file (fun _ _ => x00) (initial (BIT_MAGIC_HEADER ++ x66 :: [x00; x01]) 0) =
    Err {| input := [x00; x01]; output := []; room := 0%nat;
           diag := [] ++ [Err_unknown_field x66] |}.
Proof.
  apply (unknown_tag_fatal (fun _ _ => x00)
           (initial (BIT_MAGIC_HEADER ++ x66 :: [x00; x01]) 0) x66 [x00; x01]).
  - reflexivity.
  - intros [H|[H|[H|H]]]; discriminate.
  - discriminate.
Defined.

(** X9: an input that ends before the first tag, the empty input included:
    [process_bit_file] reports that it cannot read a field type and returns
    -1; nothing is written. *)
Theorem no_field_fatal (uninit : state -> nat -> byte) (s : state) :
  (length (input s) <= 13)%nat ->
  exists ms : list msg,
    process_bit_file uninit s =
      Err {| input := []; output := output s; room := room s;
             diag := diag s ++ ms ++ [Err_field_type_read 0] |}
    /\ (input s = BIT_MAGIC_HEADER -> ms = [])
    /\ ((length (input s) < 13)%nat -> ms = [Err_magic_short]).
Proof.
  intros Hlen. unfold process_bit_file, READ_MAGIC_HEADER, read_magic_header, fread.
  change (length BIT_MAGIC_HEADER) with 13%nat.
  rewrite take_ge, drop_ge by lia.
  destruct (Z.eqb_spec (Z.of_nat (length (input s))) (Z.of_nat 13)) as [H13|H13];
    cbn [negb].
  - destruct (Z.eqb_spec (memcmp (input s) BIT_MAGIC_HEADER 13) 0) as [Hz|Hz];
      cbn [negb ignoring input read_fields length].
    + exists []. rewrite app_nil_l. cbn.
      change (negb (Z.of_nat 0 =? 1)) with true. cbv iota.
      split; [done|]. split; [done | lia].
    + exists [Err_magic_invalid]. cbn.
      change (negb (Z.of_nat 0 =? 1)) with true. cbv iota.
      unfold eprint. cbn [input output room diag]. rewrite <- app_assoc.
      split; [done|]. split; [|lia].
      intros E. rewrite E in Hz. by destruct Hz.
  - exists [Err_magic_short]. cbn.
    change (negb (Z.of_nat 0 =? 1)) with true. cbv iota.
    unfold eprint. cbn [input output room diag]. rewrite <- app_assoc.
    split; [done|]. split; [|done]. intros E. rewrite E in H13. by destruct H13.
Qed.

Lemma no_field_fatal_witness :
  exists ms : list msg,
    process_bit_file (fun _ _ => x00) (initial [] 8) =
      Err {| input := []; output := []; room := 8%nat;
             diag := [] ++ ms ++ [Err_field_type_read 0] |}
    /\ (@nil byte = BIT_MAGIC_HEADER -> ms = [])
    /\ ((length (@nil byte) < 13)%nat -> ms = [Err_magic_short]).
Proof.
  apply (no_field_fatal (fun _ _ => x00) (initial [] 8)). simpl. lia.
Defined.

(** ** What a successful run has done *)









(** ** A well-formed file converts *)

Lemma byte_val_byte_of_Z (x : Z) : byte_val (byte_of_Z x) = x mod 256.
Proof.
  unfold byte_val, byte_of_Z.
  pose proof (Z.mod_pos_bound x 256 ltac:(lia)) as Hr.
  destruct (Byte.of_N (Z.to_N (x mod 256))) as [b|] eqn:Hb.
  - apply Byte.to_of_N in Hb. rewrite Hb. lia.
  - apply Byte.of_N_None_iff in Hb. lia.
Qed.

Lemma big_endian_be16 (x : Z) : 0 <= x < 2 ^ 16 -> big_endian (be16 x) = x.
Proof.
  intros Hx. unfold be16. cbn [big_endian length].
  rewrite !byte_val_byte_of_Z. change (Z.of_nat 1) with 1. change (Z.of_nat 0) with 0.
  div_lia.
Qed.

Lemma big_endian_be32 (x : Z) : 0 <= x < 2 ^ 32 -> big_endian (be32 x) = x.
Proof.
  intros Hx. unfold be32. cbn [big_endian length].
  rewrite !byte_val_byte_of_Z.
  change (Z.of_nat 3) with 3. change (Z.of_nat 2) with 2.
  change (Z.of_nat 1) with 1. change (Z.of_nat 0) with 0.
  div_lia.
Qed.

(** A metadata field that ends with a zero byte is read whole and its text
    printed. *)
Lemma read_meta_field_terminated
    (uninit : state -> nat -> byte) (s : state) (text rest : list byte) :
  input s = be16 (Z.of_nat (length text) + 1) ++ text ++ [x00] ++ rest ->
  (length text < 256)%nat -> x00 ∉ text ->
  read_meta_field uninit s =
    Ok tt {| input := rest; output := output s; room := room s;
             diag := diag s ++ [Meta_line text] |}.
Proof.
  intros Hin Hlen Htext. unfold read_meta_field.
  rewrite (read_uint_value 2 (be16 (Z.of_nat (length text) + 1))
             (text ++ [x00] ++ rest)) by (try done; lia).
  rewrite big_endian_be16 by lia. cbn [bind].
  unfold MAX_META_FIELD_LENGTH.
  destruct (Z.gtb_spec (Z.of_nat (length text) + 1) 256); [lia|].
  unfold fread. cbn [input output room diag].
  replace (Z.to_nat (Z.of_nat (length text) + 1)) with (length (text ++ [x00]))
    by (rewrite length_app; simpl; lia).
  rewrite (app_assoc text [x00] rest), take_app_length, drop_app_length.
  replace (Z.of_nat (length (text ++ [x00]))) with (Z.of_nat (length text) + 1)
    by (rewrite length_app; simpl; lia).
  rewrite Z.eqb_refl. cbn [negb]. rewrite <- !app_assoc. cbn [app].
  by rewrite c_string_zero.
Qed.

(** The firmware field, whole on the input, with room for it on the output. *)
Lemma process_firmware_whole (s : state) (payload rest : list byte) (inv : bool) :
  input s = be32 (48 + Z.of_nat (length payload)) ++ FIRMWARE_MAGIC_HEADER
              ++ payload ++ rest ->
  take 4 payload = (if inv then SYNC_INVERTED else SYNC_CANONICAL) ->
  Z.of_nat (length payload) mod 4 = 0 -> 48 + Z.of_nat (length payload) < 2 ^ 32 ->
  (length payload <= room s)%nat ->
  process_firmware s =
    Ok tt {| input := rest; output := output s ++ corrected inv payload;
             room := (room s - length payload)%nat; diag := diag s |}.
Proof.
  intros Hin Hsync Hmod Hbig Hroom.
  assert (4 <= length payload)%nat as H4.
  { assert (length (take 4 payload) = 4%nat) as E by (rewrite Hsync; by destruct inv).
    rewrite length_take in E. lia. }
  pose proof (big_endian_be32 (48 + Z.of_nat (length payload)) ltac:(lia)) as Hbe.
  unfold process_firmware.
  rewrite (firmware_header_ok s (be32 (48 + Z.of_nat (length payload)))
             (payload ++ rest)); [|done|done|lia|rewrite Hbe; div_lia].
  cbn [bind]. rewrite Hbe.
  replace (48 + Z.of_nat (length payload) - 48) with (Z.of_nat (length payload)) by lia.
  rewrite (copy_chunks_copies _ payload rest _ _ inv);
    cbn [fw_length chunks_done input output room diag]; try done; try lia.
  - apply (chunk_rounds_enough
             {| fw_length := Z.of_nat (length payload); chunks_done := 0;
                invert_endian := false |}). cbn. lia.
  - assert (4 <= Z.to_nat (MIN sizeof_chunk (Z.of_nat (length payload))))%nat as Hc.
    { unfold MIN, sizeof_chunk. destruct (Z.ltb_spec 4096 (Z.of_nat (length payload))); lia. }
    rewrite detect_sync_entry by (try done; rewrite length_take; lia).
    rewrite take_take. replace (4 `min` _)%nat with 4%nat by lia.
    rewrite Hsync. by destruct inv.
Qed.

Lemma metas_length (metas : list (byte * list byte)) :
  (length metas <= length (concat (map (fun m => meta_field m.1 m.2) metas)))%nat.
Proof.
  induction metas as [|m metas IH]; [done|].
  cbn [map concat length]. rewrite length_app. cbn [meta_field length]. lia.
Qed.

(** The field loop walks over the metadata fields, one round each. *)
Lemma read_fields_metas (uninit : state -> nat -> byte)
    (metas : list (byte * list byte)) :
  forall (k : nat) (s : state) (tail : list byte),
    Forall (fun m => is_meta_tag m.1 /\ (x00 ∉ m.2) /\ (length m.2 < 256)%nat) metas ->
    input s = concat (map (fun m => meta_field m.1 m.2) metas) ++ tail ->
    read_fields uninit (length metas + k) s =
      read_fields uninit k
        {| input := tail; output := output s; room := room s;
           diag := diag s ++ map (fun m => Meta_line m.2) metas |}.
Proof.
  induction metas as [|[tag text] metas IH]; intros k s tail Hok Hin.
  - cbn in *. rewrite app_nil_r. destruct s; cbn in *; by subst.
  - apply Forall_cons in Hok as [(Htag & Htext & Hlen) Hok].
    cbn [map concat fst snd] in Hin. unfold meta_field at 1 in Hin.
    cbn [length Nat.add read_fields]. unfold fread. rewrite Hin.
    rewrite <- !app_assoc. cbn [app take drop].
    rewrite take_0, drop_0.
    change (negb (Z.of_nat (length [tag]) =? 1)) with false. cbv iota.
    change ([tag] !!! 0%nat) with tag.
    match goal with |- context [dispatch uninit tag ?s1] =>
      destruct (dispatch_cases uninit tag s1) as [[_ ->]|[[-> _]|[Hb _]]]
    end.
    + rewrite (read_meta_field_terminated uninit _ text
                 (concat (map (fun m => meta_field m.1 m.2) metas) ++ tail));
        [|cbn [input]; rewrite <- !app_assoc; reflexivity|exact Hlen|exact Htext].
      cbn [bind].
      rewrite bool_decide_false
        by (intros ->; destruct Htag as [?|[?|[?|?]]]; done).
      cbn [negb]. rewrite IH with (tail := tail); [|done|done].
      cbn [input output room diag map snd]. by rewrite <- app_assoc.
    + destruct Htag as [?|[?|[?|?]]]; done.
    + exfalso. apply Hb. unfold is_meta_tag in Htag. tauto.
Qed.

(** X11: A .bit file as the parser expects it (the container magic header,
    metadata fields with zero-terminated texts, and the firmware field with a
    word-aligned payload that opens with a SYNC word in either order) is
    converted: [main] returns 0, prints the texts of the metadata fields
    in order and nothing else, writes the payload with every word in
    canonical order, and leaves what follows the firmware field unread. *)
Theorem bit_file_converts
    (uninit : state -> nat -> byte) (metas : list (byte * list byte))
    (payload rest : list byte) (capacity : nat) (inv : bool) :
  Forall (fun m => is_meta_tag m.1 /\ (x00 ∉ m.2) /\ (length m.2 < 256)%nat) metas ->
  take 4 payload = (if inv then SYNC_INVERTED else SYNC_CANONICAL) ->
  Z.of_nat (length payload) mod 4 = 0 ->
  48 + Z.of_nat (length payload) < 2 ^ 32 ->
  (length payload <= capacity)%nat ->
  main uninit (initial (bit_file metas payload ++ rest) capacity) =
    Ok tt {| input := rest;
             output := corrected inv payload;
             room := (capacity - length payload)%nat;
             diag := map (fun m => Meta_line m.2) metas |}.
Proof.
  intros Hok Hsync Hmod Hbig Hroom.
  unfold main, process_bit_file, bit_file, initial.
  rewrite (READ_MAGIC_HEADER_ok BIT_MAGIC_HEADER
             (concat (map (fun m => meta_field m.1 m.2) metas)
                ++ firmware_field payload ++ rest))
    by (cbn [input]; by rewrite <- !app_assoc).
  cbn [ignoring input output room diag].
  pose proof (metas_length metas) as Hml.
  set (fields := concat (map (fun m => meta_field m.1 m.2) metas)) in *.
  assert (S (length (fields ++ firmware_field payload ++ rest))
          = (length metas
             + S (length (fields ++ firmware_field payload ++ rest) - length metas))%nat)
    as ->.
  { rewrite length_app. lia. }
  rewrite (read_fields_metas uninit metas _ _ (firmware_field payload ++ rest))
    by done.
  cbn [read_fields input output room diag app]. unfold fread, firmware_field.
  cbn [input output room diag app take drop]. rewrite take_0, drop_0.
  change (negb (Z.of_nat (length [x65]) =? 1)) with false. cbv iota.
  change ([x65] !!! 0%nat) with x65. cbn [dispatch].
  rewrite (process_firmware_whole _ payload rest inv);
    cbn [input output room diag]; try done.
Qed.

Lemma bit_file_converts_witness :
  main (fun _ _ => xff)
    (initial (bit_file [(x61, lit "design"); (x63, lit "2021/01/01")]
                ([xaa; x99; x55; x66] ++ [x04; x03; x02; x01]) ++ [x00]) 8) =
    Ok tt {| input := [x00];
             output := corrected true ([xaa; x99; x55; x66] ++ [x04; x03; x02; x01]);
             room := (8 - length ([xaa; x99; x55; x66] ++ [x04; x03; x02; x01]))%nat;
             diag := map (fun m : byte * list byte => Meta_line m.2)
                       [(x61, lit "design"); (x63, lit "2021/01/01")] |}.
Proof.
  apply (bit_file_converts (fun _ _ => xff)
           [(x61, lit "design"); (x63, lit "2021/01/01")]
           ([xaa; x99; x55; x66] ++ [x04; x03; x02; x01]) [x00] 8 true).
  - repeat constructor; cbn; try lia; auto;
      intros H; repeat (apply elem_of_cons in H as [H|H]; [discriminate|]);
      by apply elem_of_nil in H.
  - reflexivity.
  - reflexivity.
  - reflexivity.
  - simpl. lia.
Defined.

(** ** Runs that stop in the middle of the payload *)




(** The loop when the input ends before the length left is reached. *)
Lemma copy_chunks_truncated (fuel : nat) :
  forall (avail : list byte) (v : loop_vars) (s : state) (inv : bool),
    0 <= chunks_done v -> fw_length v mod 4 = 0 ->
    fw_length v <= sizeof_chunk * Z.of_nat fuel ->
    input s = avail -> Z.of_nat (length avail) < fw_length v ->
    (length avail <= room s)%nat ->
    (sizeof_chunk <= Z.of_nat (length avail) ->
     detect_sync v (take (Z.to_nat sizeof_chunk) avail) = Some inv) ->
    copy_chunks fuel v s =
      Err {| input := [];
             output := output s
                         ++ corrected inv (take (whole_chunks (length avail)) avail);
             room := (room s - whole_chunks (length avail))%nat;
             diag := diag s
                       ++ [Err_chunk_read (Z.of_nat (length avail) mod sizeof_chunk)] |}.
Proof.
  induction fuel as [|fuel IH]; intros avail v s inv Hcd Hmod Hfuel Hin Hav Hroom Hsync.
  - unfold sizeof_chunk in *. lia.
  - assert (0 < fw_length v) as Hpos by lia.
    rewrite copy_chunks_round by done.
    destruct (MIN_chunk (fw_length v) Hpos Hmod) as (Hc & Hle & Hc4 & Hrest4 & _).
    assert (Z.of_nat (length avail) < MIN sizeof_chunk (fw_length v)
            \/ (sizeof_chunk <= Z.of_nat (length avail)
                /\ MIN sizeof_chunk (fw_length v) = sizeof_chunk)) as Hcase.
    { unfold MIN in *. destruct (Z.ltb_spec sizeof_chunk (fw_length v)); lia. }
    destruct (copy_chunk_cases v s Hpos Hmod) as [c Hlen|c chunk Hlen Hbad
      |inv0 c chunk Hlen Hsync0 Hshort|inv0 c chunk Hlen Hsync0 Hfits].
    + cbn [bind]. unfold eprint, fread. cbn [snd input output room diag].
      rewrite Hin in *. rewrite length_take in Hlen.
      assert (length avail < c)%nat as Hlt by lia.
      destruct Hcase as [Hlt'|[Hge Hfull]]; [|unfold c in Hlt; lia].
      rewrite take_ge, drop_ge by lia.
      assert (whole_chunks (length avail) = 0%nat) as ->.
      { unfold whole_chunks, sizeof_chunk in *. div_lia. }
      rewrite Z.mod_small by (unfold sizeof_chunk in *; lia).
      cbn [take]. rewrite Nat.sub_0_r.
      by destruct inv; cbn [corrected swap_words]; rewrite app_nil_r.
    + exfalso. unfold chunk in Hlen, Hbad. rewrite Hin, length_take in *.
      destruct Hcase as [Hlt'|[Hge Hfull]]; [unfold c in Hlen; lia|].
      unfold c in Hbad. rewrite Hfull, (Hsync Hge) in Hbad. done.
    + exfalso. unfold chunk in Hlen. rewrite Hin, length_take in Hlen. lia.
    + unfold chunk in *. rewrite Hin in *. rewrite length_take in Hlen.
      destruct Hcase as [Hlt'|[Hge Hfull]]; [unfold c in Hlen; lia|].
      assert (c = Z.to_nat sizeof_chunk) as Hc' by (unfold c; by rewrite Hfull).
      assert (Z.of_nat c = sizeof_chunk) as Hc'' by (unfold c; lia).
      assert (inv0 = inv) as E.
      { specialize (Hsync Hge). rewrite Hc' in Hsync0. congruence. }
      subst inv0. cbn [bind].
      assert (whole_chunks (length avail)
              = (c + whole_chunks (length (drop c avail)))%nat) as Hwhole.
      { rewrite length_drop. unfold whole_chunks. unfold sizeof_chunk in *. div_lia. }
      rewrite (IH (drop c avail) _ _ inv);
        cbn [fw_length chunks_done invert_endian input output room diag];
        try done.
      * f_equal. f_equal.
        -- rewrite <- app_assoc. f_equal.
           rewrite <- corrected_app by (rewrite length_take; div_lia).
           by rewrite take_take_drop, Hwhole.
        -- rewrite Hwhole. lia.
        -- do 3 f_equal. rewrite length_drop. unfold sizeof_chunk in *. div_lia.
      * lia.
      * rewrite Hc''. unfold sizeof_chunk in *. div_lia.
      * rewrite Hc''. unfold sizeof_chunk in *. lia.
      * rewrite length_drop. lia.
      * rewrite length_drop. lia.
      * intros _. unfold detect_sync. cbn [chunks_done invert_endian].
        destruct (Z.eqb_spec (chunks_done v + 1) 0); [lia | done].
Qed.

(** X13: A firmware field cut short: the input ends before the declared payload
    does.  [process_firmware] returns -1 with the read error, having taken
    all of the input; the output has received, corrected, the 4096-byte
    chunks that were complete, and nothing of the last partial one. *)
Theorem process_firmware_truncated
    (s : state) (len avail : list byte) (inv : bool) :
  length len = 4%nat ->
  input s = len ++ FIRMWARE_MAGIC_HEADER ++ avail ->
  52 <= big_endian len -> big_endian len mod 4 = 0 ->
  Z.of_nat (length avail) < big_endian len - 48 ->
  (length avail <= room s)%nat ->
  (sizeof_chunk <= Z.of_nat (length avail) ->
   take 4 avail = (if inv then SYNC_INVERTED else SYNC_CANONICAL)) ->
  process_firmware s =
    Err {| input := [];
           output := output s
                       ++ corrected inv (take (whole_chunks (length avail)) avail);
           room := (room s - whole_chunks (length avail))%nat;
           diag := diag s
                     ++ [Err_chunk_read (Z.of_nat (length avail) mod sizeof_chunk)] |}.
Proof.
  intros Hlen Hin Hbig Hmod Hav Hroom Hsync.
  unfold process_firmware.
  rewrite (firmware_header_ok s len avail) by done.
  cbn [bind].
  rewrite (copy_chunks_truncated _ avail _ _ inv);
    cbn [fw_length chunks_done input output room diag]; try done; try lia.
  - apply (chunk_rounds_enough
             {| fw_length := big_endian len - 48; chunks_done := 0;
                invert_endian := false |}). cbn. lia.
  - intros Hge.
    assert (4 <= Z.to_nat sizeof_chunk)%nat as H4 by (unfold sizeof_chunk; lia).
    rewrite detect_sync_entry
      by (try done; rewrite length_take; unfold sizeof_chunk in *; lia).
    rewrite take_take. replace (4 `min` Z.to_nat sizeof_chunk)%nat with 4%nat by lia.
    rewrite (Hsync Hge). by destruct inv.
Qed.

Lemma process_firmware_truncated_witness :
  process_firmware
    (initial ([x00; x00; x00; x38] ++ FIRMWARE_MAGIC_HEADER ++ [xaa; x99; x55; x66]) 8) =
    Err {| input := [];
           output := [] ++ corrected true
                             (take (whole_chunks (length [xaa; x99; x55; x66]))
                                [xaa; x99; x55; x66]);
           room := (8 - whole_chunks (length [xaa; x99; x55; x66]))%nat;
           diag := [] ++ [Err_chunk_read
                            (Z.of_nat (length [xaa; x99; x55; x66]) mod sizeof_chunk)] |}.
Proof.
  apply (process_firmware_truncated
           (initial ([x00; x00; x00; x38] ++ FIRMWARE_MAGIC_HEADER
                       ++ [xaa; x99; x55; x66]) 8)
           [x00; x00; x00; x38] [xaa; x99; x55; x66] true);
    first [reflexivity | discriminate | simpl; lia].
Defined.

(** ** The firmware extractor stays within its field *)

Lemma copy_chunks_input (fuel : nat) :
  forall (v : loop_vars) (s s' : state),
    0 <= fw_length v -> fw_length v mod 4 = 0 ->
    final (copy_chunks fuel v s) = Some s' ->
    exists k : nat, Z.of_nat k <= fw_length v /\ input s' = drop k (input s).
Proof.
  induction fuel as [|fuel IH]; intros v s s' Hfw Hmod Hfinal.
  - destruct (Z.eq_dec (fw_length v) 0) as [Hz|Hnz].
    + rewrite copy_chunks_end in Hfinal by lia. injection Hfinal as <-.
      exists 0%nat. split; [lia | done].
    + cbn in Hfinal. by destruct (Z.gtb_spec (fw_length v) 0); try lia.
  - destruct (Z.eq_dec (fw_length v) 0) as [Hz|Hnz].
    { rewrite copy_chunks_end in Hfinal by lia. injection Hfinal as <-.
      exists 0%nat. split; [lia | done]. }
    assert (0 < fw_length v) as Hpos by lia.
    rewrite copy_chunks_round in Hfinal by done.
    destruct (MIN_chunk (fw_length v) Hpos Hmod) as (Hc & Hle & Hc4 & Hrest4 & _).
    destruct (copy_chunk_cases v s Hpos Hmod) as [c Hlen|c chunk Hlen Hsync
      |inv c chunk Hlen Hsync Hroom|inv c chunk Hlen Hsync Hroom];
      cbn [bind final] in Hfinal.
    1-3: injection Hfinal as <-; exists c; split; [unfold c; lia | done].
    apply IH in Hfinal as (k & Hk & Hin);
      cbn [fw_length input] in *; [|unfold c; lia|unfold c; by rewrite Z2Nat.id by lia].
    exists (c + k)%nat. split; [unfold c in *; lia|].
    by rewrite Hin, drop_drop.
Qed.

Lemma firmware_header_length (s s1 : state) (v : loop_vars) :
  firmware_header s = Ok v s1 ->
  fw_length v = big_endian (take 4 (input s)) - 48.
Proof.
  unfold firmware_header, read_uint, fread.
  destruct (Z.eqb_spec (Z.of_nat (length (take 4 (input s)))) (Z.of_nat 4))
    as [H4|H4]; cbn [negb bind]; [|done].
  rewrite (fold_shift_in (take 4 (input s)) 0 0) by (simpl; lia).
  rewrite Z.mul_0_l, Z.add_0_l.
  repeat (case_match; try done).
  destruct (READ_MAGIC_HEADER _ _); cbn [bind]; try done.
  by intros [= <- _].
Qed.

Lemma firmware_header_error_input (s s1 : state) :
  firmware_header s = Err s1 ->
  input s1 = drop 4 (input s) \/ input s1 = drop 52 (input s).
Proof.
  unfold firmware_header, read_uint, READ_MAGIC_HEADER, read_magic_header, fread.
  cbn [bind]. repeat (case_match; cbn [bind input eprint]; try done);
    intros [= <-]; cbn [input]; rewrite ?drop_drop; auto.
Qed.

(** X14: whatever [process_firmware] returns, it has read no further than the end
    of the firmware field: at most the 4 length bytes and the 48 bytes of the
    magic header when it stops before the payload, and at most
    [4 + total_length] bytes otherwise.  What follows the field on the input
    is never consumed. *)
Theorem process_firmware_stays_in_field (s s' : state) :
  final (process_firmware s) = Some s' ->
  exists k : nat,
    input s' = drop k (input s)
    /\ ((k <= 52)%nat \/ Z.of_nat k <= 4 + big_endian (take 4 (input s))).
Proof.
  unfold process_firmware. intros Hfinal.
  destruct (firmware_header s) as [v s1|s1| |] eqn:Hhdr; cbn [bind final] in Hfinal;
    try done.
  - pose proof (firmware_header_length s s1 v Hhdr) as Hfw.
    apply firmware_header_vars in Hhdr as (H4 & Hmod & _ & _ & Hs1).
    apply copy_chunks_input in Hfinal as (k & Hk & Hin); [|lia|done].
    subst s1. cbn [input] in Hin.
    exists (52 + k)%nat. split; [by rewrite Hin, drop_drop|]. right. lia.
  - injection Hfinal as <-.
    apply firmware_header_error_input in Hhdr as [E|E]; eexists; (split; [exact E|]);
      left; lia.
Qed.

Lemma process_firmware_stays_in_field_witness :
  exists k : nat,
    [x65; x00] =
      drop k ([x00; x00; x00; x34] ++ FIRMWARE_MAGIC_HEADER ++ SYNC_CANONICAL
                ++ [x65; x00])
    /\ ((k <= 52)%nat
        \/ Z.of_nat k
           <= 4 + big_endian
                    (take 4 ([x00; x00; x00; x34] ++ FIRMWARE_MAGIC_HEADER
                               ++ SYNC_CANONICAL ++ [x65; x00]))).
Proof.
  apply (process_firmware_stays_in_field
           (initial ([x00; x00; x00; x34] ++ FIRMWARE_MAGIC_HEADER ++ SYNC_CANONICAL
                       ++ [x65; x00]) 4)
           {| input := [x65; x00]; output := SYNC_CANONICAL; room := 0%nat;
              diag := [] |}).
  vm_compute. reflexivity.
Defined.
